(** * The automod pipeline of [rcon/automods/automod.py]

    A shallow embedding of the punition engine, the enforcement executor,
    the warm-up guard, the kill and connect hooks and the deferred
    notification timers, followed by the properties established about them.

    Everything the Python module reaches through an imported name (the
    command channel, the configuration store, the moderators' methods, the
    audit webhook) is an oracle of the environment: it is consulted with the
    history of effects so far and either returns or raises.  The effects
    themselves are recorded, in program order, in the trace of the world. *)

From stdpp Require Import base gmap list strings.
From Stdlib Require Import ZArith Lia.

Open Scope string_scope.
Open Scope list_scope.

(** ** Data model *)

(** [ActionMethod] of [rcon.automods.models]. *)
Inductive ActionMethod := MESSAGE | PUNISH | KICK.

#[global] Instance ActionMethod_eq_dec : EqDecision ActionMethod.
Proof. solve_decision. Defined.

(** The fields of [PunishDetails] and [PunishPlayer] that the module reads. *)
Record PunishDetails := {
  author : string;
  message : string;
  dry_run : bool;
  discord_audit_url : option string
}.

Record PunishPlayer := {
  player_id : string;
  name : string;
  details : PunishDetails
}.

Record PunitionsToApply := {
  warning : list PunishPlayer;
  punish : list PunishPlayer;
  kick : list PunishPlayer
}.

(** [PunitionsToApply()] *)
Definition PunitionsToApply_new : PunitionsToApply :=
  {| warning := []; punish := []; kick := [] |}.

(** Modelled from the spec: [PunitionsToApply.merge] lives in
    [rcon/automods/models.py]; it concatenates the same-kind collections of
    the two aggregates, preserving order (first seen first). *)
Definition merge (self o : PunitionsToApply) : PunitionsToApply :=
  {| warning := warning self ++ warning o;
     punish := punish self ++ punish o;
     kick := kick self ++ kick o |}.

(** The exceptions the module tells apart: the two it names in
    [except (CommandFailedError, HLLServerError)], and any other [Exception]. *)
Inductive Exception :=
| CommandFailedError
| HLLServerError
| OtherException (what : string).

Inductive Res (A : Type) :=
| Ret (a : A)
| Raise (e : Exception).
Arguments Ret {A} a.
Arguments Raise {A} e.

(** The four moderator classes instantiated by [enabled_moderators]. *)
Inductive ModKind :=
| NoLeaderAutomod
| SeedingRulesAutomod
| LevelThresholdsAutomod
| NoSoloTankAutomod.

#[global] Instance ModKind_eq_dec : EqDecision ModKind.
Proof. solve_decision. Defined.

(** A loaded user configuration; its content is opaque to this module. *)
Record Config := { config_revision : nat }.

(** A moderator object: its class, its identity as an object, and the
    configuration it was constructed with. *)
Record Moderator := {
  mod_kind : ModKind;
  mod_id : nat;
  mod_config : Config
}.

(** The team view returned by [rcon.get_team_view()]: a dict from team name
    to a team dict with a ["commander"] (a player or [None]) and the
    ["squads"] dict, whose items are visited in insertion order. *)
Record TeamPlayer := { tp_name : string; tp_player_id : string }.

Record Squad := {
  players : list TeamPlayer;
  squad_rest : list (string * string)
}.

Record TeamData := {
  commander : option TeamPlayer;
  squads : list (string * Squad)
}.

Abbreviation TeamView := (gmap string TeamData).

Inductive GameState := mkGameState (raw : list (string * Z)).
Inductive GetDetailedPlayer := mkDetailedPlayer (raw : list (string * string)).
Inductive StructuredLogLineType := mkLogLine (raw : string).

(** ** Effects *)

(** Calls on the command channel [rcon]. *)
Module Rcon.
Inductive Call :=
| get_team_view
| get_gamestate
| get_detailed_player_info (player_name : string)
| message_player (player_name : option string) (player_id message by_ : string)
                 (save_message : option bool)
| punish (player_name reason by_ : string)
| kick (player_name reason by_ player_id : string).
End Rcon.

(** Calls on the redis client. *)
Module Redis.
Inductive Call :=
| exists_ (key : string)
| setex (key : string) (ttl : Z) (value : string).
End Redis.

(** An f-string [f"<prefix>{aplayer}"]. *)
Inductive FString := fstr (prefix : string) (aplayer : PunishPlayer).

(** The keyword arguments of one [send_to_discord_audit] call. *)
Record AuditCall := {
  audit_message : FString;
  audit_command_name : string;
  audit_by : string;
  audit_webhookurls : list string;
  audit_silent : bool
}.

(** Calls of a moderator's methods. *)
Inductive ModCall :=
| punitions_to_apply_call (team_view : TeamView) (squad_name team : string)
                          (squad : Squad) (gamestate : GameState)
| on_kill_call (log : StructuredLogLineType)
| on_connected_call (name player_id : string) (detail : option GetDetailedPlayer)
| player_punish_failed_call (aplayer : PunishPlayer).

Inductive LogLevel := DEBUG | WARNING | ERROR.

Inductive Event :=
| EGetRedisClient
| ERedis (c : Redis.Call)
| ELoadFromDb (k : ModKind)
| ENew (m : Moderator)
| EEnabled (m : Moderator)
| ERcon (c : Rcon.Call)
| EAudit (a : AuditCall)
| EMod (m : Moderator) (c : ModCall)
| ELog (level : LogLevel) (fmt : string)
| ETimerStart (handle : nat).

(** The environment: what every collaborator answers, given the effects so
    far.  [env_has_on_kill] and [env_has_on_connected] tell which classes
    define the optional hooks ([callable(getattr(mod, ..., None))]);
    [env_truthy] is the truth value of a [PunitionsToApply], whose class is
    defined in [rcon/automods/models.py]; [env_setex] is the answer of the
    redis server to a [setex]. *)
Record Env := {
  env_truthy : PunitionsToApply -> bool;
  env_load_from_db : list Event -> ModKind -> Res Config;
  env_enabled : list Event -> Moderator -> Res bool;
  env_get_team_view : list Event -> Res TeamView;
  env_get_gamestate : list Event -> Res GameState;
  env_get_detailed_player_info : list Event -> string -> Res GetDetailedPlayer;
  env_command : list Event -> Rcon.Call -> Res unit;
  env_send_to_discord_audit : list Event -> AuditCall -> Res unit;
  env_punitions_to_apply :
    list Event -> Moderator -> TeamView -> string -> string -> Squad ->
    GameState -> Res PunitionsToApply;
  env_has_on_kill : ModKind -> bool;
  env_on_kill : list Event -> Moderator -> StructuredLogLineType -> Res PunitionsToApply;
  env_has_on_connected : ModKind -> bool;
  env_on_connected :
    list Event -> Moderator -> string -> string -> option GetDetailedPlayer ->
    Res PunitionsToApply;
  env_player_punish_failed : list Event -> Moderator -> PunishPlayer -> Res unit;
  env_setex : list Event -> string -> Z -> string -> Res unit
}.

(** The closure [notify_player] of one [on_connected] call: the variables
    of the enclosing call it refers to. *)
Record NotifyPlayer := {
  np_name : string;
  np_player_id : string;
  np_punitions_to_apply : PunitionsToApply
}.

(** A [threading.Timer]: [finished] is the event set by [cancel()] and at
    the end of [run()]. *)
Record Timer := {
  interval : Z;
  function : NotifyPlayer;
  started : bool;
  finished : bool
}.

(** The state the module works on: the trace of effects, the redis store
    (key to time-to-live and value), the next fresh object identity, the
    timer objects created so far, and the module-level dict
    [pendingTimers] from player id to timer. *)
Record World := {
  trace : list Event;
  redis : gmap string (Z * string);
  next_id : nat;
  timers : list Timer;
  pendingTimers : gmap string nat
}.

Definition emit (e : Event) (w : World) : World :=
  {| trace := trace w ++ [e]; redis := redis w; next_id := next_id w;
     timers := timers w; pendingTimers := pendingTimers w |}.

(** ** A state and exception monad *)

Definition M (A : Type) : Type := World -> World * Res A.

Definition ret {A} (a : A) : M A := fun w => (w, Ret a).

Definition bind {A B} (c : M A) (k : A -> M B) : M B :=
  fun w =>
    match c w with
    | (w', Ret a) => k a w'
    | (w', Raise e) => (w', Raise e)
    end.

Notation "x <- c ;; k" := (bind c (fun x => k))
  (at level 100, c at next level, right associativity).
Notation "c ;; k" := (bind c (fun _ => k))
  (at level 100, right associativity).

(** [try: body except <caught>: handler] *)
Definition try_except {A} (body : M A) (caught : Exception -> bool)
    (handler : Exception -> M A) : M A :=
  fun w =>
    match body w with
    | (w', Ret a) => (w', Ret a)
    | (w', Raise e) => if caught e then handler e w' else (w', Raise e)
    end.

(** A call to a collaborator: recorded, then answered by the oracle from
    the effects that preceded it. *)
Definition call {A} (e : Event) (oracle : list Event -> Res A) : M A :=
  fun w => (emit e w, oracle (trace w)).

(** [for x in xs: acc = body(x, acc)] *)
Fixpoint for_ {A S} (xs : list A) (body : A -> S -> M S) (acc : S) : M S :=
  match xs with
  | [] => ret acc
  | x :: xs' => acc' <- body x acc ;; for_ xs' body acc'
  end.

(** [for x in xs: body(x)] *)
Fixpoint for_each {A} (xs : list A) (body : A -> M unit) : M unit :=
  match xs with
  | [] => ret tt
  | x :: xs' => body x ;; for_each xs' body
  end.

Definition when (b : bool) (c : M unit) : M unit :=
  if b then c else ret tt.

Definition logger (level : LogLevel) (fmt : string) : M unit :=
  fun w => (emit (ELog level fmt) w, Ret tt).

Definition set_redis (r : gmap string (Z * string)) (w : World) : World :=
  {| trace := trace w; redis := r; next_id := next_id w;
     timers := timers w; pendingTimers := pendingTimers w |}.

Definition set_next_id (n : nat) (w : World) : World :=
  {| trace := trace w; redis := redis w; next_id := n;
     timers := timers w; pendingTimers := pendingTimers w |}.

Definition set_timers (ts : list Timer) (w : World) : World :=
  {| trace := trace w; redis := redis w; next_id := next_id w;
     timers := ts; pendingTimers := pendingTimers w |}.

Definition set_pendingTimers (p : gmap string nat) (w : World) : World :=
  {| trace := trace w; redis := redis w; next_id := next_id w;
     timers := timers w; pendingTimers := p |}.

(** ** The module *)

Definition first_run_done_key : string := "first_run_done".

Definition recognized (e : Exception) : bool :=
  match e with
  | CommandFailedError | HLLServerError => true
  | OtherException _ => false
  end.

(** [except Exception]: every exception of the model is an [Exception]. *)
Definition any_exception (e : Exception) : bool := true.

Section Automod.

Variable env : Env.

(** *** Collaborators *)

Definition get_redis_client : M unit :=
  fun w => (emit EGetRedisClient w, Ret tt).

(** [r.exists(key)]: the number of the given keys that exist. *)
Definition redis_exists (key : string) : M Z :=
  fun w =>
    (emit (ERedis (Redis.exists_ key)) w,
     Ret (match redis w !! key with Some _ => 1 | None => 0 end)%Z).

(** [r.setex(key, ttl, value)]: a call to the server, which stores the
    key when it returns; a call that raises leaves the store of the model
    as it was. *)
Definition redis_setex (key : string) (ttl : Z) (value : string) : M unit :=
  fun w =>
    match env_setex env (trace w) key ttl value with
    | Ret _ =>
        (set_redis (<[key := (ttl, value)]> (redis w))
                   (emit (ERedis (Redis.setex key ttl value)) w),
         Ret tt)
    | Raise e => (emit (ERedis (Redis.setex key ttl value)) w, Raise e)
    end.

Definition rcon_get_team_view : M TeamView :=
  call (ERcon Rcon.get_team_view) (env_get_team_view env).

Definition rcon_get_gamestate : M GameState :=
  call (ERcon Rcon.get_gamestate) (env_get_gamestate env).

Definition rcon_get_detailed_player_info (name : string) : M GetDetailedPlayer :=
  call (ERcon (Rcon.get_detailed_player_info name))
       (fun tr => env_get_detailed_player_info env tr name).

(** [rcon.message_player], [rcon.punish] and [rcon.kick]. *)
Definition rcon_command (c : Rcon.Call) : M unit :=
  call (ERcon c) (fun tr => env_command env tr c).

Definition load_from_db (k : ModKind) : M Config :=
  call (ELoadFromDb k) (fun tr => env_load_from_db env tr k).

(** [NoLeaderAutomod(config, red)] and the like: a new object. *)
Definition new_moderator (k : ModKind) (c : Config) : M Moderator :=
  fun w =>
    let m := {| mod_kind := k; mod_id := next_id w; mod_config := c |} in
    (set_next_id (S (next_id w)) (emit (ENew m) w), Ret m).

Definition enabled (m : Moderator) : M bool :=
  call (EEnabled m) (fun tr => env_enabled env tr m).

Definition mod_punitions_to_apply (m : Moderator) (team_view : TeamView)
    (squad_name team : string) (squad : Squad) (gamestate : GameState)
    : M PunitionsToApply :=
  call (EMod m (punitions_to_apply_call team_view squad_name team squad gamestate))
       (fun tr => env_punitions_to_apply env tr m team_view squad_name team squad gamestate).

Definition mod_on_kill (m : Moderator) (log : StructuredLogLineType)
    : M PunitionsToApply :=
  call (EMod m (on_kill_call log)) (fun tr => env_on_kill env tr m log).

Definition mod_on_connected (m : Moderator) (name player_id : string)
    (detail : option GetDetailedPlayer) : M PunitionsToApply :=
  call (EMod m (on_connected_call name player_id detail))
       (fun tr => env_on_connected env tr m name player_id detail).

Definition mod_player_punish_failed (m : Moderator) (aplayer : PunishPlayer)
    : M unit :=
  call (EMod m (player_punish_failed_call aplayer))
       (fun tr => env_player_punish_failed env tr m aplayer).

(** *** [get_punitions_to_apply] *)

(** [for mod in moderators: punitions_to_apply.merge(mod.punitions_to_apply(...))] *)
Definition moderators_punitions (moderators : list Moderator)
    (team_view : TeamView) (squad_name team : string) (squad : Squad)
    (gamestate : GameState) (punitions_to_apply : PunitionsToApply)
    : M PunitionsToApply :=
  for_ moderators
    (fun mod_ acc =>
       o <- mod_punitions_to_apply mod_ team_view squad_name team squad gamestate ;;
       ret (merge acc o))
    punitions_to_apply.

(** The body of [for team in ["allies", "axis"]].  A team dict holds its
    ["commander"] and ["squads"] keys, so it is truthy: [not
    team_view.get(team)] holds exactly when the team has no entry. *)
Definition team_punitions (moderators : list Moderator) (team_view : TeamView)
    (gamestate : GameState) (team : string)
    (punitions_to_apply : PunitionsToApply) : M PunitionsToApply :=
  match team_view !! team with
  | None => ret punitions_to_apply
  | Some t =>
      acc <- match commander t with
             | Some c =>
                 moderators_punitions moderators team_view "Commander" team
                   {| players := [c]; squad_rest := [] |} gamestate
                   punitions_to_apply
             | None => ret punitions_to_apply
             end ;;
      for_ (squads t)
        (fun item acc =>
           moderators_punitions moderators team_view (fst item) team (snd item)
             gamestate acc)
        acc
  end.

Definition get_punitions_to_apply (moderators : list Moderator)
    : M PunitionsToApply :=
  logger DEBUG "Getting team info" ;;
  team_view <- rcon_get_team_view ;;
  gamestate <- rcon_get_gamestate ;;
  for_ ["allies"; "axis"] (team_punitions moderators team_view gamestate)
    PunitionsToApply_new.

(** *** [audit] *)

Definition audit (discord_webhook_url : option string) (command_name : string)
    (msg : FString) (author : string) : M unit :=
  match discord_webhook_url with
  | Some url =>
      let a := {| audit_message := msg; audit_command_name := command_name;
                  audit_by := author; audit_webhookurls := [url];
                  audit_silent := false |} in
      call (EAudit a) (fun tr => env_send_to_discord_audit env tr a)
  | None => ret tt
  end.

(** *** [_do_punitions] *)

(** The command each method sends for a player.  The first positional
    argument of [message_player] and [punish] is the player's name. *)
Definition command_of (method : ActionMethod) (aplayer : PunishPlayer) : Rcon.Call :=
  match method with
  | MESSAGE =>
      Rcon.message_player (Some (name aplayer)) (player_id aplayer)
        (message (details aplayer)) (author (details aplayer)) None
  | PUNISH =>
      Rcon.punish (name aplayer) (message (details aplayer))
        (author (details aplayer))
  | KICK =>
      Rcon.kick (name aplayer) (message (details aplayer))
        (author (details aplayer)) (player_id aplayer)
  end.

(** The body of the [try]: three [if method == ...] blocks in sequence. *)
Definition attempt (method : ActionMethod) (aplayer : PunishPlayer) : M unit :=
  when (bool_decide (method = MESSAGE))
    (when (negb (dry_run (details aplayer)))
       (rcon_command (command_of MESSAGE aplayer)) ;;
     audit (discord_audit_url (details aplayer)) "message_player"
       (fstr "-> WARNING: " aplayer) (author (details aplayer))) ;;
  when (bool_decide (method = PUNISH))
    (when (negb (dry_run (details aplayer)))
       (rcon_command (command_of PUNISH aplayer)) ;;
     audit (discord_audit_url (details aplayer)) "punish"
       (fstr "--> PUNISHING: " aplayer) (author (details aplayer))) ;;
  when (bool_decide (method = KICK))
    (when (negb (dry_run (details aplayer)))
       (rcon_command (command_of KICK aplayer)) ;;
     audit (discord_audit_url (details aplayer)) "kick"
       (fstr "---> KICKING <---: " aplayer) (author (details aplayer))).

(** The [except (CommandFailedError, HLLServerError)] block. *)
Definition on_failure (method : ActionMethod) (aplayer : PunishPlayer)
    (mods : list Moderator) : M unit :=
  logger WARNING "Couldn't `%s` player `%s`. Will retry." ;;
  if bool_decide (method = PUNISH) then
    for_each mods (fun m => mod_player_punish_failed m aplayer)
  else if bool_decide (method = KICK) then
    audit (discord_audit_url (details aplayer)) "kick"
      (fstr "---> KICK FAILED, will retry <---: " aplayer)
      (author (details aplayer))
  else ret tt.

(** The body of [for aplayer in players]. *)
Definition punish_one (method : ActionMethod) (mods : list Moderator)
    (aplayer : PunishPlayer) : M unit :=
  try_except (attempt method aplayer) recognized
    (fun _ => on_failure method aplayer mods).

Definition _do_punitions (method : ActionMethod) (players : list PunishPlayer)
    (mods : list Moderator) : M unit :=
  for_each players (punish_one method mods).

(** *** [enabled_moderators] *)

(** [list(filter(f, xs))] *)
Fixpoint filter_ {A} (f : A -> M bool) (xs : list A) : M (list A) :=
  match xs with
  | [] => ret []
  | x :: xs' =>
      b <- f x ;;
      rest <- filter_ f xs' ;;
      ret (if b then x :: rest else rest)
  end.

Definition enabled_moderators : M (list Moderator) :=
  get_redis_client ;;
  level_thresholds_config <- load_from_db LevelThresholdsAutomod ;;
  no_leader_config <- load_from_db NoLeaderAutomod ;;
  seeding_config <- load_from_db SeedingRulesAutomod ;;
  solo_tank_config <- load_from_db NoSoloTankAutomod ;;
  m1 <- new_moderator NoLeaderAutomod no_leader_config ;;
  m2 <- new_moderator SeedingRulesAutomod seeding_config ;;
  m3 <- new_moderator LevelThresholdsAutomod level_thresholds_config ;;
  m4 <- new_moderator NoSoloTankAutomod solo_tank_config ;;
  filter_ enabled [m1; m2; m3; m4].

(** *** [do_punitions] *)

Definition do_punitions (punitions_to_apply : PunitionsToApply) : M unit :=
  (if env_truthy env punitions_to_apply
   then logger DEBUG "Automod will apply the following punitions %s"
   else logger DEBUG "Automod did not suggest any punitions") ;;
  mods <- enabled_moderators ;;
  _do_punitions MESSAGE (warning punitions_to_apply) mods ;;
  mods <- enabled_moderators ;;
  _do_punitions PUNISH (punish punitions_to_apply) mods ;;
  mods <- enabled_moderators ;;
  _do_punitions KICK (kick punitions_to_apply) mods.

(** *** The warm-up guard *)

Definition is_first_run_done : M bool :=
  n <- redis_exists first_run_done_key ;;
  ret (n =? 1)%Z.

Definition set_first_run_done : M unit :=
  redis_setex first_run_done_key (4 * 60) "1".

(** *** [punish_squads] *)

Definition punish_squads : M unit :=
  mods <- enabled_moderators ;;
  if (length mods =? 0)%nat then logger DEBUG "No automod is enabled"
  else
    punitions_to_apply <- get_punitions_to_apply mods ;;
    do_punitions punitions_to_apply ;;
    set_first_run_done.

(** *** [on_kill] *)

Definition on_kill (log : StructuredLogLineType) : M unit :=
  get_redis_client ;;
  first_run_done <- is_first_run_done ;;
  if negb first_run_done then
    logger DEBUG
      "Kill event received, but not automod run done yet, giving mods time to warmup"
  else
    mods <- enabled_moderators ;;
    if (length mods =? 0)%nat then logger DEBUG "No automod is enabled"
    else
      punitions_to_apply <-
        for_ mods
          (fun mod_ acc =>
             if env_has_on_kill env (mod_kind mod_)
             then o <- mod_on_kill mod_ log ;; ret (merge acc o)
             else ret acc)
          PunitionsToApply_new ;;
      do_punitions punitions_to_apply.

(** *** Timers *)

(** [Timer(interval, function)]: a new timer object, not yet started. *)
Definition Timer_new (interval : Z) (function : NotifyPlayer) : M nat :=
fun w =>
  (set_timers (timers w ++ [{| interval := interval; function := function;
                               started := false; finished := false |}]) w,
   Ret (length (timers w))).

(** [t.start()] *)
Definition Timer_start (t : nat) : M unit :=
fun w =>
  (set_timers
     (alter (fun x => {| interval := interval x; function := function x;
                         started := true; finished := finished x |}) t (timers w))
     (emit (ETimerStart t) w),
   Ret tt).

(** [self.finished.set()] *)
Definition Timer_finish (t : nat) : M unit :=
fun w =>
  (set_timers
     (alter (fun x => {| interval := interval x; function := function x;
                         started := started x; finished := true |}) t (timers w))
     w,
   Ret tt).

(** *** [on_connected] *)

(** The message [notify_player] sends for one warning. *)
Definition deferred_message (p : PunishPlayer) : Rcon.Call :=
Rcon.message_player None (player_id p) (message (details p))
  (author (details p)) (Some false).

(** The closure [notify_player]: the [try] encloses the whole loop. *)
Definition notify_player (c : NotifyPlayer) : M unit :=
try_except
  (for_each (warning (np_punitions_to_apply c))
     (fun p => rcon_command (deferred_message p)))
  any_exception
  (fun _ => logger ERROR "Could not message player '%s' (%s) : %s").

(** [Timer.run], which the timer's thread executes once the interval has
    elapsed: the function is called unless the timer was cancelled. *)
Definition Timer_run (t : nat) : M unit :=
fun w =>
  match timers w !! t with
  | Some x =>
      if started x && negb (finished x)
      then (notify_player (function x) ;; Timer_finish t) w
      else (w, Ret tt)
  | None => (w, Ret tt)
  end.

(** Lines 236 to 261 of [on_connected]: the guards, the player's details
    and the moderators' hooks.  [None] when a guard returned. *)
Definition on_connected_punitions (name player_id : string)
    : M (option PunitionsToApply) :=
get_redis_client ;;
first_run_done <- is_first_run_done ;;
if negb first_run_done then
  logger DEBUG
    "Kill event received, but not automod run done yet, giving mods time to warmup" ;;
  ret None
else
  mods <- enabled_moderators ;;
  if (length mods =? 0)%nat then
    logger DEBUG "No automod is enabled" ;; ret None
  else
    detailed_player_info <-
      try_except
        (d <- rcon_get_detailed_player_info name ;; ret (Some d))
        any_exception
        (fun _ =>
           logger ERROR "get_detailed_player_info threw an exception for {name}: {e}" ;;
           ret None) ;;
    punitions_to_apply <-
      for_ mods
        (fun mod_ acc =>
           if env_has_on_connected env (mod_kind mod_)
           then o <- mod_on_connected mod_ name player_id detailed_player_info ;;
                ret (merge acc o)
           else ret acc)
        PunitionsToApply_new ;;
    ret (Some punitions_to_apply).

(** Lines 263 to 281 of [on_connected]: what is done with the merged
    punitions. *)
Definition on_connected_defer (name player_id : string)
    (punitions_to_apply : PunitionsToApply) : M unit :=
if (length (warning punitions_to_apply) =? 0)%nat then ret tt
else
  t <- Timer_new 20 {| np_name := name; np_player_id := player_id;
                       np_punitions_to_apply := punitions_to_apply |} ;;
  (fun w => (set_pendingTimers (<[player_id := t]> (pendingTimers w)) w, Ret tt)) ;;
  Timer_start t.

Definition on_connected (name player_id : string) : M unit :=
o <- on_connected_punitions name player_id ;;
match o with
| Some punitions_to_apply => on_connected_defer name player_id punitions_to_apply
| None => ret tt
end.

End Automod.

(** ** Observations *)

(** The effects recorded between two worlds. *)
Definition new_events (w w' : World) : list Event :=
drop (length (trace w)) (trace w').

(** The calls made on the command channel. *)
Definition rcon_calls (tr : list Event) : list Rcon.Call :=
omap (fun e => match e with ERcon c => Some c | _ => None end) tr.

(** The pass of the executor an effect belongs to: a command, an audit
    record (by its command name) or a punish-failure callback. *)
Definition stage (e : Event) : option ActionMethod :=
match e with
| ERcon (Rcon.message_player _ _ _ _ _) => Some MESSAGE
| ERcon (Rcon.punish _ _ _) => Some PUNISH
| ERcon (Rcon.kick _ _ _ _) => Some KICK
| EAudit a =>
    if String.eqb (audit_command_name a) "message_player" then Some MESSAGE
    else if String.eqb (audit_command_name a) "punish" then Some PUNISH
    else if String.eqb (audit_command_name a) "kick" then Some KICK
    else None
| EMod _ (player_punish_failed_call _) => Some PUNISH
| _ => None
end.

(** An effect that is no part of any executor pass. *)
Definition idle (e : Event) : Prop := stage e = None.

(** An effect of the pass for [method], or of none. *)
Definition of_stage (method : ActionMethod) (e : Event) : Prop :=
stage e = None \/ stage e = Some method.

(** The audit record [_do_punitions] writes after the command of [method]. *)
Definition success_audit (method : ActionMethod) (aplayer : PunishPlayer)
    (url : string) : AuditCall :=
{| audit_message :=
     fstr match method with
          | MESSAGE => "-> WARNING: "
          | PUNISH => "--> PUNISHING: "
          | KICK => "---> KICKING <---: "
          end aplayer;
   audit_command_name :=
     match method with
     | MESSAGE => "message_player"
     | PUNISH => "punish"
     | KICK => "kick"
     end;
   audit_by := author (details aplayer);
   audit_webhookurls := [url];
   audit_silent := false |}.

(** The entries of a collection whose command is really sent. *)
Definition sent (players : list PunishPlayer) : list PunishPlayer :=
List.filter (fun p => negb (dry_run (details p))) players.

(** The commands a complete [do_punitions] sends, in order. *)
Definition expected_commands (p : PunitionsToApply) : list Rcon.Call :=
map (command_of MESSAGE) (sent (warning p))
++ map (command_of PUNISH) (sent (punish p))
++ map (command_of KICK) (sent (kick p)).

(** The moderators whose [player_punish_failed] was called. *)
Definition punish_failed_targets (tr : list Event) : list Moderator :=
omap (fun e => match e with
               | EMod m (player_punish_failed_call _) => Some m
               | _ => None
               end) tr.

(** The timers that will still fire: started and not finished. *)
Definition pending (t : Timer) : bool := started t && negb (finished t).

(** The closures of the pending timers of one player. *)
Definition pending_for (player_id : string) (w : World) : list NotifyPlayer :=
map function
  (List.filter (fun t => pending t && String.eqb (np_player_id (function t)) player_id)
     (timers w)).

(** The world changed only by appending effects that satisfy [P]. *)
Definition appends (P : Event -> Prop) : relation World :=
fun w w' =>
  (exists new, trace w' = trace w ++ new /\ Forall P new)
  /\ redis w' = redis w
  /\ timers w' = timers w
  /\ pendingTimers w' = pendingTimers w.

(** Every run of [c] relates the world before to the world after. *)
Definition steps (R : relation World) {A} (c : M A) : Prop :=
forall w, R w (c w).1.

(** What [enabled_moderators] records: the redis client, the loads, the
    constructions and the [enabled()] calls. *)
Definition setup (e : Event) : Prop :=
match e with
| EGetRedisClient | ELoadFromDb _ | ENew _ | EEnabled _ => True
| _ => False
end.

(** The effects of a run that belongs to the pass for [method] and is to
    send the commands [cmds]: effects of that pass only, the commands sent
    are the first ones of [cmds], and all of them when the run returns. *)
Definition staged (method : ActionMethod) (cmds : list Rcon.Call) (w : World)
    (res : World * Res unit) : Prop :=
exists new,
  trace res.1 = trace w ++ new
  /\ Forall (of_stage method) new
  /\ rcon_calls new `prefix_of` cmds
  /\ (res.2 = Ret tt -> rcon_calls new = cmds).

(** One pass of [do_punitions] with the construction of its moderators
    (one [_do_punitions(...)] statement with its arguments). *)
Definition segment (env : Env) (method : ActionMethod) (players : list PunishPlayer)
    : M unit :=
mods <- enabled_moderators env ;; _do_punitions env method players mods.

(** The debug message [do_punitions] starts with. *)
Definition do_punitions_log (env : Env) (p : PunitionsToApply) : Event :=
ELog DEBUG (if env_truthy env p then "Automod will apply the following punitions %s"
            else "Automod did not suggest any punitions").

(** The error message of [notify_player]. *)
Definition notify_error : Event :=
  ELog ERROR "Could not message player '%s' (%s) : %s".

(** The timer [on_connected] creates and starts for the punitions [p]. *)
Definition connect_closure (name player_id : string) (p : PunitionsToApply)
    : NotifyPlayer :=
  {| np_name := name; np_player_id := player_id; np_punitions_to_apply := p |}.

Definition connect_timer (name player_id : string) (p : PunitionsToApply) : Timer :=
  {| interval := 20; function := connect_closure name player_id p;
     started := true; finished := false |}.

(** The world [on_connected] leaves when it schedules the timer. *)
Definition scheduled (name player_id : string) (p : PunitionsToApply) (w : World)
    : World :=
  {| trace := trace w ++ [ETimerStart (length (timers w))];
     redis := redis w;
     next_id := next_id w;
     timers := timers w ++ [connect_timer name player_id p];
     pendingTimers := <[player_id := length (timers w)]> (pendingTimers w) |}.

(** What a run of [notify_player] records: messages of its queued
    warnings, and its error message. *)
Definition notification_of (c : NotifyPlayer) (e : Event) : Prop :=
  (exists a, In a (warning (np_punitions_to_apply c)) /\ e = ERcon (deferred_message a))
  \/ e = notify_error.

(** The object identities are left as they were. *)
Definition same_ids : relation World := fun w w' => next_id w' = next_id w.

(** What one pass with the moderators [mods] may record: commands, audit
    records, log messages, and punish-failure callbacks on [mods] only. *)
Definition pass_event (mods : list Moderator) (e : Event) : Prop :=
  match e with
  | ERcon _ | EAudit _ | ELog _ _ => True
  | EMod m (player_punish_failed_call _) => In m mods
  | _ => False
  end.

(** The moderator has one of the [k] identities from [n] on. *)
Definition fresh_from (n k : nat) (m : Moderator) : Prop :=
  n <= mod_id m < n + k.

(** The moderators whose [punitions_to_apply] was called: the ones that
    proposed the punitions of a poll cycle. *)
Definition proposers (tr : list Event) : list Moderator :=
  omap (fun e => match e with
                 | EMod m (punitions_to_apply_call _ _ _ _ _) => Some m
                 | _ => None
                 end) tr.

(** What [get_punitions_to_apply] may record with the moderators [mods]. *)
Definition engine_event (mods : list Moderator) (e : Event) : Prop :=
  match e with
  | ELog _ _ | ERcon _ => True
  | EMod m (punitions_to_apply_call _ _ _ _ _) => In m mods
  | _ => False
  end.

(** An effect that is no call of [punitions_to_apply]. *)
Definition no_proposal (e : Event) : Prop :=
  match e with
  | EMod _ (punitions_to_apply_call _ _ _ _ _) => False
  | _ => True
  end.

(** An effect that is no call of [player_punish_failed]. *)
Definition no_callback (e : Event) : Prop :=
  match e with
  | EMod _ (player_punish_failed_call _) => False
  | _ => True
  end.

(** The three runs of [enabled_moderators] of one [do_punitions] call and
    the passes between them, when all return. *)
Definition three_constructions (env : Env) (p : PunitionsToApply) (w : World)
    (mods1 mods2 mods3 : list Moderator) (w5 : World) : Prop :=
  exists w1 w2 w3 w4,
    enabled_moderators env (emit (do_punitions_log env p) w) = (w1, Ret mods1)
    /\ _do_punitions env MESSAGE (warning p) mods1 w1 = (w2, Ret tt)
    /\ enabled_moderators env w2 = (w3, Ret mods2)
    /\ _do_punitions env PUNISH (punish p) mods2 w3 = (w4, Ret tt)
    /\ enabled_moderators env w4 = (w5, Ret mods3).

(** An environment in which no exception escapes a pass of the executor:
    the channel fails with a [CommandFailedError] or an [HLLServerError]
    only, and the audit webhook and the moderators' callbacks return. *)
Definition caught_in_pass (env : Env) : Prop :=
  (forall tr c e, env_command env tr c = Raise e -> recognized e = true)
  /\ (forall tr a, env_send_to_discord_audit env tr a = Ret tt)
  /\ (forall tr m q, env_player_punish_failed env tr m q = Ret tt).

(** An environment in which no exception escapes [do_punitions]: moreover
    the configuration store and the moderators' [enabled()] answer. *)
Definition no_uncaught_failure (env : Env) : Prop :=
  (forall tr k, exists c, env_load_from_db env tr k = Ret c)
  /\ (forall tr m, exists b, env_enabled env tr m = Ret b)
  /\ caught_in_pass env.

(** The audit records a pass is to write for its dry-run entries. *)
Definition dry_run_audits (method : ActionMethod) (players : list PunishPlayer)
    : list AuditCall :=
  omap (fun p => if dry_run (details p)
                 then success_audit method p <$> discord_audit_url (details p)
                 else None) players.

(** The audit records written for dry-run entries: an audit message
    carries the entry it is about. *)
Definition audits_of_dry_runs (tr : list Event) : list AuditCall :=
  omap (fun e => match e with
                 | EAudit a =>
                     match audit_message a with
                     | fstr _ p => if dry_run (details p) then Some a else None
                     end
                 | _ => None
                 end) tr.

(** An effect that, if it is an audit record, is about the entry [p]. *)
Definition about (p : PunishPlayer) (e : Event) : Prop :=
  match e with
  | EAudit a => exists prefix, audit_message a = fstr prefix p
  | _ => True
  end.

(** The timer [first] runs the closure [c1], then the timer [second] runs
    the closure [c2], from the world [w]: each run is a run of the timer's
    own [notify_player], returns, and records nothing but messages of the
    warnings of its own closure (and its error log). *)
Definition fire_in_order (env : Env) (first : nat) (c1 : NotifyPlayer) (second : nat)
    (c2 : NotifyPlayer) (w : World) : Prop :=
  exists w3 w4,
    notify_player env c1 w = (w3, Ret tt)
    /\ Timer_run env first w = Timer_finish first w3
    /\ Forall (notification_of c1) (new_events w w3)
    /\ notify_player env c2 (Timer_finish first w3).1 = (w4, Ret tt)
    /\ Timer_run env second (Timer_finish first w3).1 = Timer_finish second w4
    /\ Forall (notification_of c2) (new_events (Timer_finish first w3).1 w4).

(** ** The specification's wording of the claims that fail *)

(** The claim C4 as the specification words it: whatever fails, every
    queued message is still attempted. *)
Definition delivery_continues (env : Env) (c : NotifyPlayer) (w : World) : Prop :=
  forall p, In p (warning (np_punitions_to_apply c)) ->
            In (ERcon (deferred_message p)) (new_events w (notify_player env c w).1).

(** The claim C1 as the specification words it: when the merged punitions
    of a connect event hold a warning, the commands of its punish and kick
    entries are sent by the hook. *)
Definition connect_applies_immediately (env : Env) (name player_id : string)
    (w : World) : Prop :=
  forall w1 p,
    on_connected_punitions env name player_id w = (w1, Ret (Some p)) ->
    warning p <> [] ->
    (forall a, In a (sent (punish p)) ->
               In (ERcon (command_of PUNISH a))
                  (new_events w (on_connected env name player_id w).1))
    /\ (forall a, In a (sent (kick p)) ->
                  In (ERcon (command_of KICK a))
                     (new_events w (on_connected env name player_id w).1)).

(** The claim C2 as the specification words it: after two connect events
    of one player that both schedule a notification, the only timer still
    to fire for the player is the second one. *)
Definition one_delivery (env : Env) (name1 name2 player_id : string) (w : World)
    : Prop :=
  let w1 := (on_connected env name1 player_id w).1 in
  let w2 := (on_connected env name2 player_id w1).1 in
  forall wb p2,
    on_connected_punitions env name2 player_id w1 = (wb, Ret (Some p2)) ->
    warning p2 <> [] ->
    pending_for player_id w2 = [connect_closure name2 player_id p2].


(** ** Test environments *)

(** A fresh world: nothing recorded, an empty redis, no timer. *)
Definition w_fresh : World :=
{| trace := []; redis := ∅; next_id := 0; timers := []; pendingTimers := ∅ |}.

(** The same with the warm-up guard set. *)
Definition w_ready : World :=
{| trace := []; redis := {[ first_run_done_key := (240%Z, "1") ]}; next_id := 0;
   timers := []; pendingTimers := ∅ |}.

(** An environment in which every collaborator returns, no moderator is
    enabled and no hook proposes anything. *)
Definition env_quiet : Env :=
{| env_truthy := fun p => negb (bool_decide (warning p ++ punish p ++ kick p = []));
   env_load_from_db := fun tr _ => Ret {| config_revision := length tr |};
   env_enabled := fun _ _ => Ret false;
   env_get_team_view := fun _ => Ret ∅;
   env_get_gamestate := fun _ => Ret (mkGameState []);
   env_get_detailed_player_info := fun _ _ => Ret (mkDetailedPlayer []);
   env_command := fun _ _ => Ret tt;
   env_send_to_discord_audit := fun _ _ => Ret tt;
   env_punitions_to_apply := fun _ _ _ _ _ _ _ => Ret PunitionsToApply_new;
   env_has_on_kill := fun _ => false;
   env_on_kill := fun _ _ _ => Ret PunitionsToApply_new;
   env_has_on_connected := fun _ => false;
   env_on_connected := fun _ _ _ _ _ => Ret PunitionsToApply_new;
   env_player_punish_failed := fun _ _ _ => Ret tt;
   env_setex := fun _ _ _ _ => Ret tt |}.

(** An audit webhook. *)
Definition hook : string := "https://discord.example/api/webhooks/1".

(** Pending actions: for alice, audited, really sent or as a dry run; for
    bob, not audited. *)
Definition alice : PunishPlayer :=
  {| player_id := "76561198000000001"; name := "alice";
     details := {| author := "NoLeaderWatch"; message := "Your squad has no leader";
                   dry_run := false; discord_audit_url := Some hook |} |}.

Definition alice_dry : PunishPlayer :=
  {| player_id := "76561198000000001"; name := "alice";
     details := {| author := "NoLeaderWatch"; message := "Your squad has no leader";
                   dry_run := true; discord_audit_url := Some hook |} |}.

Definition bob : PunishPlayer :=
  {| player_id := "76561198000000002"; name := "bob";
     details := {| author := "SeedingRulesAutomod"; message := "Welcome, we are seeding";
                   dry_run := false; discord_audit_url := None |} |}.

(** Two moderator objects. *)
Definition mod_a : Moderator :=
  {| mod_kind := NoLeaderAutomod; mod_id := 0; mod_config := {| config_revision := 1 |} |}.
Definition mod_b : Moderator :=
  {| mod_kind := SeedingRulesAutomod; mod_id := 1; mod_config := {| config_revision := 1 |} |}.

(** [env_quiet] with a channel that rejects every [punish] command. *)
Definition env_reject : Env :=
  {| env_truthy := env_truthy env_quiet;
     env_load_from_db := env_load_from_db env_quiet;
     env_enabled := env_enabled env_quiet;
     env_get_team_view := env_get_team_view env_quiet;
     env_get_gamestate := env_get_gamestate env_quiet;
     env_get_detailed_player_info := env_get_detailed_player_info env_quiet;
     env_command := fun _ c => match c with
                               | Rcon.punish _ _ _ => Raise CommandFailedError
                               | _ => Ret tt
                               end;
     env_send_to_discord_audit := env_send_to_discord_audit env_quiet;
     env_punitions_to_apply := env_punitions_to_apply env_quiet;
     env_has_on_kill := env_has_on_kill env_quiet;
     env_on_kill := env_on_kill env_quiet;
     env_has_on_connected := env_has_on_connected env_quiet;
     env_on_connected := env_on_connected env_quiet;
     env_player_punish_failed := env_player_punish_failed env_quiet;
     env_setex := env_setex env_quiet |}.

(** The one squad of a team view without allies, whose axis team has no
    commander. *)
Definition squad_able : Squad :=
  {| players := [{| tp_name := "carl"; tp_player_id := "76561198000000003" |}];
     squad_rest := [("type", "infantry"); ("has_leader", "False")] |}.

(** The team view: no allies entry, an axis entry. *)
Definition tv_axis_only : TeamView :=
  {[ "axis" := {| commander := None; squads := [("able", squad_able)] |} ]}.

(** A game state. *)
Definition gs0 : GameState := mkGameState [("num_allied_players", 0%Z)].

(** [env_quiet] with a channel on which no message can be delivered. *)
Definition env_offline : Env :=
  {| env_truthy := env_truthy env_quiet;
     env_load_from_db := env_load_from_db env_quiet;
     env_enabled := env_enabled env_quiet;
     env_get_team_view := env_get_team_view env_quiet;
     env_get_gamestate := env_get_gamestate env_quiet;
     env_get_detailed_player_info := env_get_detailed_player_info env_quiet;
     env_command := fun _ c => match c with
                               | Rcon.message_player _ _ _ _ _ => Raise HLLServerError
                               | _ => Ret tt
                               end;
     env_send_to_discord_audit := env_send_to_discord_audit env_quiet;
     env_punitions_to_apply := env_punitions_to_apply env_quiet;
     env_has_on_kill := env_has_on_kill env_quiet;
     env_on_kill := env_on_kill env_quiet;
     env_has_on_connected := env_has_on_connected env_quiet;
     env_on_connected := env_on_connected env_quiet;
     env_player_punish_failed := env_player_punish_failed env_quiet;
     env_setex := env_setex env_quiet |}.

(** A second warning for bob. *)
Definition bob_rules : PunishPlayer :=
  {| player_id := "76561198000000002"; name := "bob";
     details := {| author := "LevelThresholdsAutomod"; message := "Mind the level rules";
                   dry_run := false; discord_audit_url := None |} |}.

(** Two warnings queued for bob, who connected. *)
Definition bob_closure : NotifyPlayer :=
  {| np_name := "bob"; np_player_id := "76561198000000002";
     np_punitions_to_apply := {| warning := [bob; bob_rules]; punish := []; kick := [] |} |}.

(** A moderator's welcome for a player who connects. *)
Definition welcome (name player_id message : string) : PunishPlayer :=
  {| player_id := player_id; name := name;
     details := {| author := "SeedingRulesAutomod"; message := message;
                   dry_run := false; discord_audit_url := Some hook |} |}.

(** [env_quiet] with the seeding moderator enabled; its [on_connected] hook
    proposes a warning, a punish and a kick for the player, the warning
    worded differently once a timer has been started. *)
Definition env_welcome : Env :=
  {| env_truthy := env_truthy env_quiet;
     env_load_from_db := env_load_from_db env_quiet;
     env_enabled := fun _ m => Ret (bool_decide (mod_kind m = SeedingRulesAutomod));
     env_get_team_view := env_get_team_view env_quiet;
     env_get_gamestate := env_get_gamestate env_quiet;
     env_get_detailed_player_info := env_get_detailed_player_info env_quiet;
     env_command := env_command env_quiet;
     env_send_to_discord_audit := env_send_to_discord_audit env_quiet;
     env_punitions_to_apply := env_punitions_to_apply env_quiet;
     env_has_on_kill := env_has_on_kill env_quiet;
     env_on_kill := env_on_kill env_quiet;
     env_has_on_connected := fun k => bool_decide (k = SeedingRulesAutomod);
     env_on_connected := fun tr _ name player_id _ =>
       Ret {| warning :=
                [welcome name player_id
                   (if existsb (fun e => match e with ETimerStart _ => true | _ => false end) tr
                    then "Welcome back" else "Welcome")];
              punish := [welcome name player_id "You are punished"];
              kick := [welcome name player_id "You are kicked"] |};
     env_player_punish_failed := env_player_punish_failed env_quiet;
     env_setex := env_setex env_quiet |}.

(** The player identifier of bob. *)
Definition bob_id : string := "76561198000000002".

(** The merged punitions of the first connection of bob under [env_welcome]. *)
Definition bob_welcome : PunitionsToApply :=
  {| warning := [welcome "bob" bob_id "Welcome"];
     punish := [welcome "bob" bob_id "You are punished"];
     kick := [welcome "bob" bob_id "You are kicked"] |}.

(** The merged punitions of a second connection of bob under [env_welcome]. *)
Definition bob_welcome_back : PunitionsToApply :=
  {| warning := [welcome "bob" bob_id "Welcome back"];
     punish := [welcome "bob" bob_id "You are punished"];
     kick := [welcome "bob" bob_id "You are kicked"] |}.

(** The world after bob connected once, and after a second connection. *)
Definition w_bob_once : World := (on_connected env_welcome "bob" bob_id w_ready).1.
Definition w_bob_twice : World := (on_connected env_welcome "bob" bob_id w_bob_once).1.

(** An environment in which the stored configuration changes between two
    reads: a loaded configuration carries the number of loads made before
    it; the no-leader rule is enabled in the first four, the seeding rule
    in the first eight, the level rule always, the solo-tank rule never.
    The channel rejects every [punish] command. *)
Definition env_toggle : Env :=
  {| env_truthy := env_truthy env_quiet;
     env_load_from_db := fun tr _ =>
       Ret {| config_revision :=
                length (List.filter (fun e => match e with ELoadFromDb _ => true | _ => false end) tr) |};
     env_enabled := fun _ m =>
       Ret match mod_kind m with
           | NoLeaderAutomod => (config_revision (mod_config m) <? 4)%nat
           | SeedingRulesAutomod => (config_revision (mod_config m) <? 8)%nat
           | LevelThresholdsAutomod => true
           | NoSoloTankAutomod => false
           end;
     env_get_team_view := env_get_team_view env_quiet;
     env_get_gamestate := env_get_gamestate env_quiet;
     env_get_detailed_player_info := env_get_detailed_player_info env_quiet;
     env_command := env_command env_reject;
     env_send_to_discord_audit := env_send_to_discord_audit env_quiet;
     env_punitions_to_apply := env_punitions_to_apply env_quiet;
     env_has_on_kill := env_has_on_kill env_quiet;
     env_on_kill := env_on_kill env_quiet;
     env_has_on_connected := env_has_on_connected env_quiet;
     env_on_connected := env_on_connected env_quiet;
     env_player_punish_failed := env_player_punish_failed env_quiet;
     env_setex := env_setex env_quiet |}.

(** One punish proposed for alice. *)
Definition punish_alice : PunitionsToApply :=
  {| warning := []; punish := [alice]; kick := [] |}.



(** The audit record the handler of [_do_punitions] writes for a kick that
    failed. *)
Definition kick_failed_audit (aplayer : PunishPlayer) (url : string) : AuditCall :=
  {| audit_message := fstr "---> KICK FAILED, will retry <---: " aplayer;
     audit_command_name := "kick";
     audit_by := author (details aplayer);
     audit_webhookurls := [url];
     audit_silent := false |}.

(** The warning the handler of [_do_punitions] logs. *)
Definition retry_warning : Event :=
  ELog WARNING "Couldn't `%s` player `%s`. Will retry.".

(** [env_quiet] with a channel that fails on kicking bob with an exception
    the executor does not know. *)
Definition env_crash : Env :=
  {| env_truthy := env_truthy env_quiet;
     env_load_from_db := env_load_from_db env_quiet;
     env_enabled := env_enabled env_quiet;
     env_get_team_view := env_get_team_view env_quiet;
     env_get_gamestate := env_get_gamestate env_quiet;
     env_get_detailed_player_info := env_get_detailed_player_info env_quiet;
     env_command := fun _ c =>
       match c with
       | Rcon.kick "bob" _ _ _ => Raise (OtherException "ValueError")
       | _ => Ret tt
       end;
     env_send_to_discord_audit := env_send_to_discord_audit env_quiet;
     env_punitions_to_apply := env_punitions_to_apply env_quiet;
     env_has_on_kill := env_has_on_kill env_quiet;
     env_on_kill := env_on_kill env_quiet;
     env_has_on_connected := env_has_on_connected env_quiet;
     env_on_connected := env_on_connected env_quiet;
     env_player_punish_failed := env_player_punish_failed env_quiet;
     env_setex := env_setex env_quiet |}.

(** The four objects one run of [enabled_moderators] constructs, from the
    first free identity [n] and the four loaded configurations, in the
    order of the list it filters. *)
Definition constructed (n : nat) (level_thresholds_config no_leader_config
    seeding_config solo_tank_config : Config) : list Moderator :=
  [{| mod_kind := NoLeaderAutomod; mod_id := n; mod_config := no_leader_config |};
   {| mod_kind := SeedingRulesAutomod; mod_id := S n; mod_config := seeding_config |};
   {| mod_kind := LevelThresholdsAutomod; mod_id := S (S n);
      mod_config := level_thresholds_config |};
   {| mod_kind := NoSoloTankAutomod; mod_id := S (S (S n));
      mod_config := solo_tank_config |}].

(** The moderators kept by the answers [bs] of their [enabled()]. *)
Fixpoint kept (ms : list Moderator) (bs : list bool) : list Moderator :=
  match ms, bs with
  | m :: ms', b :: bs' => if b then m :: kept ms' bs' else kept ms' bs'
  | _, _ => []
  end.

(** The answers of the configuration store to loads of the kinds [ks] made
    one after the other, from the effects [tr] on. *)
Fixpoint load_answers (env : Env) (tr : list Event) (ks : list ModKind)
    : list (Res Config) :=
  match ks with
  | [] => []
  | k :: ks' => env_load_from_db env tr k :: load_answers env (tr ++ [ELoadFromDb k]) ks'
  end.

(** The answers of the moderators [ms] to [enabled()], asked one after the
    other, from the effects [tr] on. *)
Fixpoint enabled_answers (env : Env) (tr : list Event) (ms : list Moderator)
    : list (Res bool) :=
  match ms with
  | [] => []
  | m :: ms' => env_enabled env tr m :: enabled_answers env (tr ++ [EEnabled m]) ms'
  end.

(** The effects [enabled_moderators] starts with: the redis client and the
    four loads. *)
Definition moderators_header : list Event :=
  [EGetRedisClient;
   ELoadFromDb LevelThresholdsAutomod; ELoadFromDb NoLeaderAutomod;
   ELoadFromDb SeedingRulesAutomod; ELoadFromDb NoSoloTankAutomod].

(** The units of a team the engine evaluates: the commander, when there is
    one, as a squad named Commander holding the commander alone, then the
    squads. *)
Definition units (t : TeamData) : list (string * Squad) :=
  match commander t with
  | Some c => [("Commander", {| players := [c]; squad_rest := [] |})]
  | None => []
  end ++ squads t.

(** The moderator calls for one unit, for one team and for the two teams. *)
Definition unit_calls (mods : list Moderator) (tv : TeamView) (gs : GameState)
    (team : string) (u : string * Squad) : list Event :=
  map (fun m => EMod m (punitions_to_apply_call tv u.1 team u.2 gs)) mods.

Definition team_calls (mods : list Moderator) (tv : TeamView) (gs : GameState)
    (team : string) : list Event :=
  match tv !! team with
  | Some t => flat_map (unit_calls mods tv gs team) (units t)
  | None => []
  end.

Definition engine_calls (mods : list Moderator) (tv : TeamView) (gs : GameState)
    : list Event :=
  team_calls mods tv gs "allies" ++ team_calls mods tv gs "axis".

(** The run recorded the first effects of [expected], and all of them if it
    returned. *)
Definition follows {A} (expected : list Event) (w : World) (res : World * Res A)
    : Prop :=
  exists new,
    trace res.1 = trace w ++ new
    /\ new `prefix_of` expected
    /\ (forall a, res.2 = Ret a -> new = expected).

(** The three effects [get_punitions_to_apply] starts with. *)
Definition engine_header : list Event :=
  [ELog DEBUG "Getting team info"; ERcon Rcon.get_team_view; ERcon Rcon.get_gamestate].

(** An environment whose team view is [tv_axis_only]. *)
Definition env_axis : Env :=
  {| env_truthy := env_truthy env_quiet;
     env_load_from_db := env_load_from_db env_quiet;
     env_enabled := env_enabled env_quiet;
     env_get_team_view := fun _ => Ret tv_axis_only;
     env_get_gamestate := fun _ => Ret gs0;
     env_get_detailed_player_info := env_get_detailed_player_info env_quiet;
     env_command := env_command env_quiet;
     env_send_to_discord_audit := env_send_to_discord_audit env_quiet;
     env_punitions_to_apply := env_punitions_to_apply env_quiet;
     env_has_on_kill := env_has_on_kill env_quiet;
     env_on_kill := env_on_kill env_quiet;
     env_has_on_connected := env_has_on_connected env_quiet;
     env_on_connected := env_on_connected env_quiet;
     env_player_punish_failed := env_player_punish_failed env_quiet;
     env_setex := env_setex env_quiet |}.

(** An environment whose only enabled moderator, the seeding one, fails in
    its evaluation. *)
Definition env_faulty : Env :=
  {| env_truthy := env_truthy env_quiet;
     env_load_from_db := env_load_from_db env_quiet;
     env_enabled := fun _ m => Ret (bool_decide (mod_kind m = SeedingRulesAutomod));
     env_get_team_view := fun _ => Ret tv_axis_only;
     env_get_gamestate := fun _ => Ret gs0;
     env_get_detailed_player_info := env_get_detailed_player_info env_quiet;
     env_command := env_command env_quiet;
     env_send_to_discord_audit := env_send_to_discord_audit env_quiet;
     env_punitions_to_apply := fun _ m _ _ _ _ _ =>
       match mod_kind m with
       | SeedingRulesAutomod => Raise (OtherException "KeyError")
       | _ => Ret PunitionsToApply_new
       end;
     env_has_on_kill := env_has_on_kill env_quiet;
     env_on_kill := env_on_kill env_quiet;
     env_has_on_connected := env_has_on_connected env_quiet;
     env_on_connected := env_on_connected env_quiet;
     env_player_punish_failed := env_player_punish_failed env_quiet;
     env_setex := env_setex env_quiet |}.

(** The debug message of a hook that finds the warm-up guard unset; the
    connect hook logs the same text as the kill hook. *)
Definition warmup_message : Event :=
  ELog DEBUG
    "Kill event received, but not automod run done yet, giving mods time to warmup".

(** The [setex] of [set_first_run_done]. *)
Definition guard_setex : Event :=
  ERedis (Redis.setex first_run_done_key 240 "1").

(** An effect that writes nothing to redis. *)
Definition no_setex (e : Event) : Prop :=
  match e with
  | ERedis (Redis.setex _ _ _) => False
  | _ => True
  end.

(** What [do_punitions] may record: the effects of [enabled_moderators],
    log messages, commands, audit records and punish-failure callbacks. *)
Definition executor_event (e : Event) : Prop :=
  match e with
  | EGetRedisClient | ELoadFromDb _ | ENew _ | EEnabled _
  | ERcon _ | EAudit _ | ELog _ _ | EMod _ (player_punish_failed_call _) => True
  | _ => False
  end.

(** What the kill hook may record for the log line [log]: the lookup of
    the guard, the effects of the executor, and [on_kill] calls, with that
    log line, on moderators whose class defines the hook. *)
Definition kill_event (env : Env) (log : StructuredLogLineType) (e : Event) : Prop :=
  match e with
  | ERedis (Redis.exists_ _) => True
  | EMod m (on_kill_call l) => env_has_on_kill env (mod_kind m) = true /\ l = log
  | _ => executor_event e
  end.

(** An environment in which the level moderator is enabled and proposes
    nothing. *)
Definition env_level : Env :=
  {| env_truthy := env_truthy env_quiet;
     env_load_from_db := env_load_from_db env_quiet;
     env_enabled := fun _ m => Ret (bool_decide (mod_kind m = LevelThresholdsAutomod));
     env_get_team_view := fun _ => Ret tv_axis_only;
     env_get_gamestate := fun _ => Ret gs0;
     env_get_detailed_player_info := env_get_detailed_player_info env_quiet;
     env_command := env_command env_quiet;
     env_send_to_discord_audit := env_send_to_discord_audit env_quiet;
     env_punitions_to_apply := env_punitions_to_apply env_quiet;
     env_has_on_kill := env_has_on_kill env_quiet;
     env_on_kill := env_on_kill env_quiet;
     env_has_on_connected := env_has_on_connected env_quiet;
     env_on_connected := env_on_connected env_quiet;
     env_player_punish_failed := env_player_punish_failed env_quiet;
     env_setex := env_setex env_quiet |}.

(** [env_level] with a redis server that cannot be reached when the cycle
    marks the guard. *)
Definition env_store_down : Env :=
  {| env_truthy := env_truthy env_level;
     env_load_from_db := env_load_from_db env_level;
     env_enabled := env_enabled env_level;
     env_get_team_view := env_get_team_view env_level;
     env_get_gamestate := env_get_gamestate env_level;
     env_get_detailed_player_info := env_get_detailed_player_info env_level;
     env_command := env_command env_level;
     env_send_to_discord_audit := env_send_to_discord_audit env_level;
     env_punitions_to_apply := env_punitions_to_apply env_level;
     env_has_on_kill := env_has_on_kill env_level;
     env_on_kill := env_on_kill env_level;
     env_has_on_connected := env_has_on_connected env_level;
     env_on_connected := env_on_connected env_level;
     env_player_punish_failed := env_player_punish_failed env_level;
     env_setex := fun _ _ _ _ => Raise (OtherException "ConnectionError") |}.

(** [env_quiet] with the seeding moderator enabled; its class defines
    [on_kill], which proposes a punish for alice at every kill. *)
Definition env_kill : Env :=
  {| env_truthy := env_truthy env_quiet;
     env_load_from_db := env_load_from_db env_quiet;
     env_enabled := fun _ m => Ret (bool_decide (mod_kind m = SeedingRulesAutomod));
     env_get_team_view := env_get_team_view env_quiet;
     env_get_gamestate := env_get_gamestate env_quiet;
     env_get_detailed_player_info := env_get_detailed_player_info env_quiet;
     env_command := env_command env_quiet;
     env_send_to_discord_audit := env_send_to_discord_audit env_quiet;
     env_punitions_to_apply := env_punitions_to_apply env_quiet;
     env_has_on_kill := fun k => bool_decide (k = SeedingRulesAutomod);
     env_on_kill := fun _ _ _ => Ret punish_alice;
     env_has_on_connected := env_has_on_connected env_quiet;
     env_on_connected := env_on_connected env_quiet;
     env_player_punish_failed := env_player_punish_failed env_quiet;
     env_setex := env_setex env_quiet |}.

(** The loop of [on_kill] over the moderators: the hook of each one whose
    class defines it. *)
Definition kill_hooks (env : Env) (log : StructuredLogLineType) (mods : list Moderator)
    : M PunitionsToApply :=
  for_ mods
    (fun mod_ acc =>
       if env_has_on_kill env (mod_kind mod_)
       then o <- mod_on_kill env mod_ log ;; ret (merge acc o)
       else ret acc)
    PunitionsToApply_new.

(** The loop of [on_connected] over the moderators: the hook of each one
    whose class defines it, with the player's details or [None]. *)
Definition connect_hooks (env : Env) (name player_id : string)
    (detailed_player_info : option GetDetailedPlayer) (mods : list Moderator)
    : M PunitionsToApply :=
  for_ mods
    (fun mod_ acc =>
       if env_has_on_connected env (mod_kind mod_)
       then o <- mod_on_connected env mod_ name player_id detailed_player_info ;;
            ret (merge acc o)
       else ret acc)
    PunitionsToApply_new.

(** The error [on_connected] logs when the player's details cannot be
    fetched. *)
Definition detail_error : Event :=
  ELog ERROR "get_detailed_player_info threw an exception for {name}: {e}".

(** [env_welcome] with a channel that cannot tell a player's details. *)
Definition env_no_detail : Env :=
  {| env_truthy := env_truthy env_welcome;
     env_load_from_db := env_load_from_db env_welcome;
     env_enabled := env_enabled env_welcome;
     env_get_team_view := env_get_team_view env_welcome;
     env_get_gamestate := env_get_gamestate env_welcome;
     env_get_detailed_player_info := fun _ _ => Raise (OtherException "TimeoutError");
     env_command := env_command env_welcome;
     env_send_to_discord_audit := env_send_to_discord_audit env_welcome;
     env_punitions_to_apply := env_punitions_to_apply env_welcome;
     env_has_on_kill := env_has_on_kill env_welcome;
     env_on_kill := env_on_kill env_welcome;
     env_has_on_connected := env_has_on_connected env_welcome;
     env_on_connected := env_on_connected env_welcome;
     env_player_punish_failed := env_player_punish_failed env_welcome;
     env_setex := env_setex env_welcome |}.

(** [raise e], and a bare [raise] in a handler for [e]. *)
Definition raise {A} (e : Exception) : M A := fun w => (w, Raise e).

(** What a bounded run of the loop of [run] ends with when no cycle
    failed: the loop itself has no exit. *)
Inductive Unfinished := out_of_fuel.

(** One turn of [while True] in [run]: the cycle, then [time.sleep(5)],
    which lets time pass and changes nothing of the state modelled here;
    [logger.exception] logs at error level. *)
Definition run_cycle (env : Env) : M unit :=
  try_except
    (punish_squads env ;; ret tt)
    any_exception
    (fun e => logger ERROR "Squad automod: Something unexpected happened" ;; raise e).

(** The loop of [run], for at most [fuel] turns. *)
Fixpoint run_loop (env : Env) (fuel : nat) : M Unfinished :=
  match fuel with
  | 0 => ret out_of_fuel
  | S fuel' => run_cycle env ;; run_loop env fuel'
  end.

(** [run]: [get_rcon()] hands out the channel the environment stands for. *)
Definition run (env : Env) (fuel : nat) : M Unfinished :=
  get_redis_client ;; run_loop env fuel.

(** [n] poll cycles in a row. *)
Fixpoint cycles (env : Env) (n : nat) : M unit :=
  match n with
  | 0 => ret tt
  | S n' => punish_squads env ;; cycles env n'
  end.

(** The error [run] logs before it re-raises. *)
Definition run_error : Event :=
  ELog ERROR "Squad automod: Something unexpected happened".

(** * Properties *)

(** ** Reasoning about runs *)

Lemma bind_ret_l {A B} (c : M A) (k : A -> M B) w w1 a :
  c w = (w1, Ret a) -> bind c k w = k a w1.
Proof. intros H. unfold bind. by rewrite H. Qed.

Lemma for_each_app {A} (xs ys : list A) (body : A -> M unit) w w1 :
  for_each xs body w = (w1, Ret tt) ->
  for_each (xs ++ ys) body w = for_each ys body w1.
Proof.
  revert w. induction xs as [|x xs IH]; intros w H; simpl in *.
  - by inversion H.
  - unfold bind in *.
    destruct (body x w) as [w2 [[]|e]]; [by apply IH | discriminate].
Qed.

Section Steps.

Context (R : relation World) `{!PreOrder R}.

Lemma steps_ret {A} (a : A) : steps R (ret a).
Proof. intros w. simpl. reflexivity. Qed.

Lemma steps_bind {A B} (c : M A) (k : A -> M B) :
  steps R c -> (forall a, steps R (k a)) -> steps R (bind c k).
Proof.
  intros Hc Hk w. unfold bind. specialize (Hc w).
  destruct (c w) as [w1 [a|e]]; simpl in *; [|done].
  etrans; [exact Hc | apply Hk].
Qed.

Lemma steps_try_except {A} (body : M A) caught (handler : Exception -> M A) :
  steps R body -> (forall e, steps R (handler e)) ->
  steps R (try_except body caught handler).
Proof.
  intros Hb Hh w. unfold try_except. specialize (Hb w).
  destruct (body w) as [w1 [a|e]]; simpl in *; [done|].
  destruct (caught e); [|done].
  etrans; [exact Hb | apply Hh].
Qed.

Lemma steps_for_ {A S} (xs : list A) (body : A -> S -> M S) acc :
  (forall x acc, In x xs -> steps R (body x acc)) -> steps R (for_ xs body acc).
Proof.
  revert acc. induction xs as [|x xs IH]; intros acc H; simpl.
  - apply steps_ret.
  - apply steps_bind; [apply H; by left|].
    intros a. apply IH. intros y b Hy. apply H. by right.
Qed.

Lemma steps_for_each {A} (xs : list A) (body : A -> M unit) :
  (forall x, In x xs -> steps R (body x)) -> steps R (for_each xs body).
Proof.
  induction xs as [|x xs IH]; intros H; simpl.
  - apply steps_ret.
  - apply steps_bind; [apply H; by left|].
    intros _. apply IH. intros y Hy. apply H. by right.
Qed.

Lemma steps_when b (c : M unit) : steps R c -> steps R (when b c).
Proof. intros H. destruct b; [done | apply steps_ret]. Qed.

Lemma steps_filter_ {A} (f : A -> M bool) (xs : list A) :
  (forall x, steps R (f x)) -> steps R (filter_ f xs).
Proof.
  intros H. induction xs as [|x xs IH]; simpl; [apply steps_ret|].
  apply steps_bind; [apply H|]. intros b.
  apply steps_bind; [apply IH|]. intros rest. apply steps_ret.
Qed.

End Steps.

#[global] Instance appends_preorder P : PreOrder (appends P).
Proof.
  split.
  - intros w. split; [|done]. exists []. by rewrite app_nil_r.
  - intros w1 w2 w3 ((n1 & E1 & F1) & r1 & t1 & p1) ((n2 & E2 & F2) & r2 & t2 & p2).
    split; [|by rewrite r2, t2, p2].
    exists (n1 ++ n2). rewrite E2, E1, app_assoc. split; [done|].
    by apply Forall_app.
Qed.

Lemma appends_mono (P Q : Event -> Prop) w w' :
  (forall e, P e -> Q e) -> appends P w w' -> appends Q w w'.
Proof.
  intros H ((n & E & F) & Hrest). split; [|done].
  exists n. split; [done|]. eapply Forall_impl; eauto.
Qed.

Lemma steps_mono (P Q : Event -> Prop) {A} (c : M A) :
  (forall e, P e -> Q e) -> steps (appends P) c -> steps (appends Q) c.
Proof. intros H Hc w. eapply appends_mono; eauto. Qed.

Lemma appends_emit (P : Event -> Prop) e w : P e -> appends P w (emit e w).
Proof.
  intros H. split; [|done]. exists [e]. split; [done|]. by constructor.
Qed.

Lemma appends_new_events P w w' :
  appends P w w' -> trace w' = trace w ++ new_events w w' /\ Forall P (new_events w w').
Proof.
  intros ((n & E & F) & _). unfold new_events.
  rewrite E, drop_app_length. done.
Qed.

Lemma new_events_emit e w : new_events w (emit e w) = [e].
Proof. unfold new_events. simpl. by rewrite drop_app_length. Qed.

Lemma steps_call (P : Event -> Prop) {A} e (oracle : list Event -> Res A) :
  P e -> steps (appends P) (call e oracle).
Proof. intros H w. by apply appends_emit. Qed.

Lemma steps_logger (P : Event -> Prop) level fmt :
  P (ELog level fmt) -> steps (appends P) (logger level fmt).
Proof. intros H w. by apply appends_emit. Qed.

(** ** The effects of each function *)

Lemma steps_new_moderator (P : Event -> Prop) k c :
  (forall m, P (ENew m)) -> steps (appends P) (new_moderator k c).
Proof.
  intros H w. split; [|done]. eexists [_]. split; [done|].
  constructor; [apply H | constructor].
Qed.

Lemma enabled_moderators_steps env : steps (appends setup) (enabled_moderators env).
Proof.
  unfold enabled_moderators.
  apply steps_bind; [tc_solve | intros w; by apply appends_emit |]. intros _.
  repeat (apply steps_bind; [tc_solve | by apply steps_call | intros ?]).
  repeat (apply steps_bind; [tc_solve | by apply steps_new_moderator | intros ?]).
  apply steps_filter_; [tc_solve|]. intros m. by apply steps_call.
Qed.

Lemma rcon_calls_app l1 l2 : rcon_calls (l1 ++ l2) = rcon_calls l1 ++ rcon_calls l2.
Proof. apply omap_app. Qed.

Lemma rcon_calls_none (P : Event -> Prop) l :
  (forall c, ~ P (ERcon c)) -> Forall P l -> rcon_calls l = [].
Proof.
  intros HP. induction 1 as [|e l He _ IH]; [done|].
  change (e :: l) with ([e] ++ l). rewrite rcon_calls_app, IH.
  destruct e; try done. by destruct (HP c).
Qed.

(** ** The warm-up guard and the poll cycle *)

(** C8: a kill event that arrives while the warm-up guard is not set (the
    key [first_run_done] is absent from redis) only looks the key up and
    logs a debug message: no moderator method is called, nothing is sent on
    the command channel, nothing is audited, and the world is otherwise
    unchanged. *)
Theorem on_kill_not_ready env log w :
  redis w !! first_run_done_key = None ->
  on_kill env log w
  = (emit (ELog DEBUG
             "Kill event received, but not automod run done yet, giving mods time to warmup")
       (emit (ERedis (Redis.exists_ first_run_done_key)) (emit EGetRedisClient w)),
     Ret tt)
  /\ Forall (fun e => (forall m c, e <> EMod m c) /\ (forall c, e <> ERcon c)
                      /\ (forall a, e <> EAudit a))
       (new_events w (on_kill env log w).1).
Proof.
  intros H.
  assert (E : on_kill env log w
    = (emit (ELog DEBUG
               "Kill event received, but not automod run done yet, giving mods time to warmup")
         (emit (ERedis (Redis.exists_ first_run_done_key)) (emit EGetRedisClient w)),
       Ret tt)).
  { unfold on_kill, bind, get_redis_client, is_first_run_done, redis_exists, logger.
    simpl. by rewrite H. }
  split; [exact E|]. rewrite E. unfold new_events. simpl.
  rewrite <- !app_assoc, drop_app_length. simpl.
  repeat constructor; intros; discriminate.
Qed.

Lemma on_kill_not_ready_witness :
  new_events w_fresh (on_kill env_quiet (mkLogLine "KILL") w_fresh).1
  = [EGetRedisClient; ERedis (Redis.exists_ first_run_done_key);
     ELog DEBUG
       "Kill event received, but not automod run done yet, giving mods time to warmup"].
Proof.
  pose proof (on_kill_not_ready env_quiet (mkLogLine "KILL") w_fresh eq_refl) as [E _].
  rewrite E. reflexivity.
Defined.

(** C7: when [enabled_moderators] returns the empty list, [punish_squads]
    logs a debug message and returns: it makes no call on the command
    channel (neither a state fetch nor an action), makes no [setex], and
    leaves the redis store, hence the warm-up guard, as it was. *)
Theorem punish_squads_no_moderator env w w1 :
  enabled_moderators env w = (w1, Ret []) ->
  punish_squads env w = (emit (ELog DEBUG "No automod is enabled") w1, Ret tt)
  /\ rcon_calls (new_events w (punish_squads env w).1) = []
  /\ Forall (fun e => forall c, e <> ERedis c) (new_events w (punish_squads env w).1)
  /\ redis (punish_squads env w).1 = redis w
  /\ (is_first_run_done (punish_squads env w).1).2 = (is_first_run_done w).2.
Proof.
  intros H.
  assert (E : punish_squads env w
              = (emit (ELog DEBUG "No automod is enabled") w1, Ret tt)).
  { unfold punish_squads. by rewrite (bind_ret_l _ _ _ _ _ H). }
  split; [exact E|]. rewrite E. simpl.
  assert (A : appends (fun e => setup e \/ e = ELog DEBUG "No automod is enabled")
                w (emit (ELog DEBUG "No automod is enabled") w1)).
  { etrans.
    - eapply appends_mono; [|pose proof (enabled_moderators_steps env w) as S;
                              rewrite H in S; exact S].
      intros e He. by left.
    - apply appends_emit. by right. }
  destruct (appends_new_events _ _ _ A) as [_ F].
  destruct A as (_ & Hr & _).
  split; [|split; [|split]].
  - eapply rcon_calls_none; [|exact F]. intros c [[]|?]; discriminate.
  - eapply Forall_impl; [exact F|]. intros e [He|He] c Hc; subst; [destruct He | discriminate].
  - exact Hr.
  - unfold is_first_run_done, bind, redis_exists. simpl in *. by rewrite Hr.
Qed.

Lemma punish_squads_no_moderator_witness :
  rcon_calls (new_events w_fresh (punish_squads env_quiet w_fresh).1) = []
  /\ redis (punish_squads env_quiet w_fresh).1 = redis w_fresh.
Proof.
  pose proof (punish_squads_no_moderator env_quiet w_fresh
                (enabled_moderators env_quiet w_fresh).1 eq_refl)
    as (_ & H1 & _ & H2 & _).
  exact (conj H1 H2).
Defined.

(** ** The enforcement executor *)

Lemma new_events_app w w' n : trace w' = trace w ++ n -> new_events w w' = n.
Proof. intros E. unfold new_events. by rewrite E, drop_app_length. Qed.

(** Case analysis on every answer of the environment met in the goal. *)
Ltac case_answers :=
  repeat match goal with
         | |- context [match ?x with Ret _ => _ | Raise _ => _ end] =>
             let E := fresh "E" in destruct x eqn:E; simpl
         | |- context [let (_, _) := ?x in _] =>
             let E := fresh "E" in destruct x eqn:E; simpl
         | |- context [if recognized ?e then _ else _] => destruct e; simpl
         end.

Ltac trace_eq := simpl; rewrite <- ?app_assoc, ?app_nil_r; simpl; try reflexivity.

Lemma attempt_trace env method p w :
  exists audits,
    trace (attempt env method p w).1
    = trace w ++ (if dry_run (details p) then [] else [ERcon (command_of method p)]) ++ audits
    /\ Forall (fun e => exists url, discord_audit_url (details p) = Some url
                                  /\ e = EAudit (success_audit method p url)) audits.
Proof.
  destruct method; unfold attempt, audit, when, rcon_command, call, bind, ret; simpl.
  all: destruct (dry_run (details p)); simpl.
  all: destruct (discord_audit_url (details p)) as [url|] eqn:U; simpl.
  all: case_answers.
  all: first [ by (exists []; split; [trace_eq | constructor])
             | by (eexists [_]; split;
                   [trace_eq | constructor; [eexists; split; reflexivity | constructor]]) ].
Qed.

(** The handler records no command. *)
Lemma on_failure_steps env method p mods :
  steps (appends (fun e => of_stage method e /\ forall c, e <> ERcon c))
    (on_failure env method p mods).
Proof.
  unfold on_failure.
  apply steps_bind; [tc_solve | apply steps_logger; split; [by left | done] |].
  intros _. destruct method; simpl.
  - apply steps_ret; tc_solve.
  - apply steps_for_each; [tc_solve|]. intros m _.
    apply steps_call. split; [by right | done].
  - unfold audit. destruct (discord_audit_url (details p)).
    + apply steps_call. split; [by right | done].
    + apply steps_ret; tc_solve.
Qed.

(** One player of a pass: the command, when the entry is no dry run, then
    effects of the same pass that are no commands. *)
Lemma punish_one_trace env method mods p w :
  exists rest,
    trace (punish_one env method mods p w).1
    = trace w ++ (if dry_run (details p) then [] else [ERcon (command_of method p)]) ++ rest
    /\ Forall (fun e => of_stage method e /\ forall c, e <> ERcon c) rest.
Proof.
  unfold punish_one, try_except.
  destruct (attempt_trace env method p w) as (audits & Ea & Fa).
  assert (Fb : Forall (fun e => of_stage method e /\ forall c, e <> ERcon c) audits).
  { eapply Forall_impl; [exact Fa|]. intros e (url & _ & ->).
    split; [right; by destruct method | done]. }
  destruct (attempt env method p w) as [w1 [[]|e]]; simpl in *.
  - by exists audits.
  - destruct (recognized e); simpl; [|by exists audits].
    destruct (on_failure_steps env method p mods w1) as ((n & En & Fn) & _).
    exists (audits ++ n). rewrite En, Ea, <- !app_assoc. split; [done|].
    by apply Forall_app.
Qed.

Lemma bind_assoc {A B C} (c : M A) (k : A -> M B) (k' : B -> M C) w :
  bind (bind c k) k' w = bind c (fun a => bind (k a) k') w.
Proof. unfold bind. by destruct (c w) as [w1 [a|e]]. Qed.

Lemma of_stage_command method p : of_stage method (ERcon (command_of method p)).
Proof. right. by destruct method. Qed.

Lemma sent_cons p ps :
  sent (p :: ps) = (if dry_run (details p) then [] else [p]) ++ sent ps.
Proof. unfold sent. simpl. by destruct (dry_run (details p)). Qed.

Lemma pass_staged env method players mods w :
  staged method (map (command_of method) (sent players)) w
    (_do_punitions env method players mods w).
Proof.
  revert w. induction players as [|p ps IH]; intros w.
  - exists []. simpl. rewrite app_nil_r. (split; [done|]). (split; [constructor|]).
    (split; [apply prefix_nil | done]).
  - rewrite sent_cons, map_app.
    unfold _do_punitions in IH |- *. cbn [for_each]. unfold bind.
    destruct (punish_one_trace env method mods p w) as (rest & E & F).
    assert (C : rcon_calls rest = []).
    { eapply rcon_calls_none; [|exact F]. intros c [_ H]. by apply (H c). }
    assert (S : Forall (of_stage method)
                  ((if dry_run (details p) then [] else [ERcon (command_of method p)])
                   ++ rest)).
    { apply Forall_app. split.
      - destruct (dry_run (details p)); [constructor|].
        constructor; [apply of_stage_command | constructor].
      - eapply Forall_impl; [exact F|]. by intros e [H _]. }
    assert (K : rcon_calls ((if dry_run (details p) then []
                             else [ERcon (command_of method p)]) ++ rest)
                = map (command_of method) (if dry_run (details p) then [] else [p])).
    { rewrite rcon_calls_app, C, app_nil_r. by destruct (dry_run (details p)). }
    destruct (punish_one env method mods p w) as [w1 [[]|e]]; simpl in E.
    + destruct (IH w1) as (new & E1 & F1 & P1 & R1).
      exists (((if dry_run (details p) then [] else [ERcon (command_of method p)])
               ++ rest) ++ new).
      split; [by rewrite E1, E, <- !app_assoc|].
      split; [by apply Forall_app|]. rewrite rcon_calls_app, K.
      split; [by apply prefix_app | intros H; by rewrite R1].
    + exists ((if dry_run (details p) then [] else [ERcon (command_of method p)])
              ++ rest).
      split; [exact E|]. split; [exact S|].
      rewrite K. split; [by apply prefix_app_r | done].
Qed.

Lemma setup_idle e : setup e -> idle e.
Proof. by destruct e. Qed.

(** A pass together with the construction of its moderators. *)
Lemma segment_staged env method players w :
  staged method (map (command_of method) (sent players)) w
    ((mods <- enabled_moderators env ;; _do_punitions env method players mods) w).
Proof.
  unfold bind.
  destruct (enabled_moderators_steps env w) as ((n & E & F) & _).
  assert (C : rcon_calls n = []).
  { eapply rcon_calls_none; [|exact F]. intros c H. exact H. }
  assert (S : Forall (of_stage method) n).
  { eapply Forall_impl; [exact F|]. intros e He. left. by apply setup_idle. }
  destruct (enabled_moderators env w) as [w1 [mods|e]]; simpl in E.
  - destruct (pass_staged env method players mods w1) as (new & E1 & F1 & P1 & R1).
    exists (n ++ new). rewrite E1, E, <- app_assoc. split; [done|].
    split; [by apply Forall_app|]. by rewrite rcon_calls_app, C.
  - exists n. split; [done|]. split; [done|]. rewrite C.
    split; [apply prefix_nil | done].
Qed.

Lemma do_punitions_segments env p w :
  do_punitions env p w
  = (segment env MESSAGE (warning p) ;;
     segment env PUNISH (punish p) ;;
     segment env KICK (kick p)) (emit (do_punitions_log env p) w).
Proof.
  unfold do_punitions, segment, do_punitions_log, bind, logger.
  destruct (env_truthy env p); simpl.
  all: repeat match goal with
              | |- context [match ?x with (_, _) => _ end] =>
                  destruct x as [? [?|?]]; try reflexivity
              end.
Qed.

Lemma staged_order n1 n2 n3 i j ei ej :
  Forall (of_stage MESSAGE) n1 -> Forall (of_stage PUNISH) n2 ->
  Forall (of_stage KICK) n3 ->
  (n1 ++ n2 ++ n3) !! i = Some ei -> (n1 ++ n2 ++ n3) !! j = Some ej ->
  stage ei = Some KICK -> stage ej = Some MESSAGE -> j < i.
Proof.
  intros F1 F2 F3 Hi Hj Si Sj.
  assert (Hn1 : forall k e, n1 !! k = Some e -> stage e <> Some KICK).
  { intros k e Hk. destruct (proj1 (Forall_lookup _ _) F1 k e Hk) as [H|H];
      rewrite H; discriminate. }
  assert (Hn23 : forall k e, (n2 ++ n3) !! k = Some e -> stage e <> Some MESSAGE).
  { intros k e Hk. apply lookup_app_Some in Hk as [Hk|[_ Hk]].
    - destruct (proj1 (Forall_lookup _ _) F2 k e Hk) as [H|H]; rewrite H; discriminate.
    - destruct (proj1 (Forall_lookup _ _) F3 _ e Hk) as [H|H]; rewrite H; discriminate. }
  apply lookup_app_Some in Hi as [Hi|[Li Hi]]; [by destruct (Hn1 _ _ Hi)|].
  apply lookup_app_Some in Hj as [Hj|[Lj Hj]]; [|by destruct (Hn23 _ _ Hj)].
  apply lookup_lt_Some in Hj. lia.
Qed.

Lemma callbacks_run env mods p w :
  (forall tr m, env_player_punish_failed env tr m p = Ret tt) ->
  exists w',
    for_each mods (fun m => mod_player_punish_failed env m p) w = (w', Ret tt)
    /\ trace w' = trace w ++ map (fun m => EMod m (player_punish_failed_call p)) mods.
Proof.
  intros H. revert w. induction mods as [|m mods IH]; intros w; simpl.
  - exists w. by rewrite app_nil_r.
  - unfold bind, mod_player_punish_failed, call. rewrite H.
    destruct (IH (emit (EMod m (player_punish_failed_call p)) w)) as (w' & E & T).
    exists w'. split; [exact E|]. rewrite T. simpl. by rewrite <- app_assoc.
Qed.

(** A turn of the executor returns when the channel fails with
    recognized errors only and the audit webhook and the callbacks return. *)
Lemma punish_one_returns env method mods p w :
  (forall tr c e, env_command env tr c = Raise e -> recognized e = true) ->
  (forall tr a, env_send_to_discord_audit env tr a = Ret tt) ->
  (forall tr m q, env_player_punish_failed env tr m q = Ret tt) ->
  (punish_one env method mods p w).2 = Ret tt.
Proof.
  intros C A F.
  assert (Au : forall u c m a w0, (audit env u c m a w0).2 = Ret tt).
  { intros [u|] c m a w0; [apply A | done]. }
  assert (H : forall w0, (on_failure env method p mods w0).2 = Ret tt).
  { intros w0. unfold on_failure, bind, logger. simpl.
    destruct method; simpl; [done | | apply Au].
    destruct (callbacks_run env mods p
                (emit (ELog WARNING "Couldn't `%s` player `%s`. Will retry.") w0)
                (fun tr m => F tr m p)) as (w' & E & _).
    by rewrite E. }
  unfold punish_one, try_except.
  destruct (attempt env method p w) as [w1 [[]|e]] eqn:E; [done|].
  assert (R : recognized e = true).
  { revert E. destruct method; unfold attempt, when, rcon_command, call, bind, ret;
      simpl; destruct (dry_run (details p)); simpl.
    all: try (destruct (env_command env (trace w) _) as [[]|e'] eqn:Ec; simpl).
    all: try match goal with
             | |- context [audit ?en ?u ?c ?m ?a ?w0] =>
                 let Ha := fresh in
                 pose proof (Au u c m a w0) as Ha;
                 destruct (audit en u c m a w0) as [? [[]|?]]; simpl in Ha;
                 [|discriminate]
             end.
    all: intros I; inversion I; subst; eauto. }
  rewrite R. apply H.
Qed.

Lemma enabled_moderators_returns env w :
  (forall tr k, exists c, env_load_from_db env tr k = Ret c) ->
  (forall tr m, exists b, env_enabled env tr m = Ret b) ->
  exists w' mods, enabled_moderators env w = (w', Ret mods).
Proof.
  intros HL HE.
  cbv [enabled_moderators bind get_redis_client load_from_db new_moderator
         enabled call ret filter_].
  simpl.
  repeat match goal with
         | |- context [env_load_from_db env ?t ?k] =>
             let c := fresh "c" in
             let L := fresh "L" in
             destruct (HL t k) as [c L]; rewrite L; simpl
         end.
  repeat match goal with
         | |- context [env_enabled env ?t ?m] =>
             let b := fresh "b" in
             let B := fresh "B" in
             destruct (HE t m) as [b B]; rewrite B; simpl
         end.
  by do 2 eexists.
Qed.

Lemma pass_returns env method players mods w :
  (forall tr c e, env_command env tr c = Raise e -> recognized e = true) ->
  (forall tr a, env_send_to_discord_audit env tr a = Ret tt) ->
  (forall tr m q, env_player_punish_failed env tr m q = Ret tt) ->
  (_do_punitions env method players mods w).2 = Ret tt.
Proof.
  intros C A F. unfold _do_punitions. revert w.
  induction players as [|p ps IH]; intros w; simpl; [done|].
  unfold bind. pose proof (punish_one_returns env method mods p w C A F) as P.
  destruct (punish_one env method mods p w) as [w1 [[]|e]]; simpl in P;
    [apply IH | discriminate].
Qed.

Lemma segment_returns env method players w :
  no_uncaught_failure env -> (segment env method players w).2 = Ret tt.
Proof.
  intros (HL & HE & C & A & F). unfold segment, bind.
  destruct (enabled_moderators_returns env w HL HE) as (w' & mods & ->).
  by apply pass_returns.
Qed.

Lemma do_punitions_returns env p w :
  no_uncaught_failure env -> (do_punitions env p w).2 = Ret tt.
Proof.
  intros H. rewrite do_punitions_segments. unfold bind.
  pose proof (segment_returns env MESSAGE (warning p) (emit (do_punitions_log env p) w) H) as S1.
  destruct (segment env MESSAGE (warning p) _) as [w1 r1]. simpl in S1. subst r1.
  pose proof (segment_returns env PUNISH (punish p) w1 H) as S2.
  destruct (segment env PUNISH (punish p) w1) as [w2 r2]. simpl in S2. subst r2.
  by apply segment_returns.
Qed.

Lemma do_punitions_staged env p w :
  exists n1 n2 n3,
    new_events w (do_punitions env p w).1 = n1 ++ n2 ++ n3
    /\ Forall (of_stage MESSAGE) n1
    /\ Forall (of_stage PUNISH) n2
    /\ Forall (of_stage KICK) n3
    /\ rcon_calls (n1 ++ n2 ++ n3) `prefix_of` expected_commands p
    /\ ((do_punitions env p w).2 = Ret tt ->
        rcon_calls (n1 ++ n2 ++ n3) = expected_commands p)
    /\ (forall i j ei ej,
          (n1 ++ n2 ++ n3) !! i = Some ei -> (n1 ++ n2 ++ n3) !! j = Some ej ->
          stage ei = Some KICK -> stage ej = Some MESSAGE -> j < i).
Proof.
  rewrite do_punitions_segments. unfold expected_commands.
  set (w0 := emit (do_punitions_log env p) w).
  assert (L : of_stage MESSAGE (do_punitions_log env p)) by by left.
  assert (O : forall n1 n2 n3 w',
             trace w' = trace w0 ++ n1 ++ n2 ++ n3 ->
             new_events w w' = (do_punitions_log env p :: n1) ++ n2 ++ n3).
  { intros n1 n2 n3 w' E. apply new_events_app. rewrite E. simpl.
    by rewrite <- app_assoc. }
  clearbody w0.
  assert (C : forall l l',
             rcon_calls ((do_punitions_log env p :: l) ++ l') = rcon_calls (l ++ l')) by done.
  unfold bind.
  destruct (segment_staged env MESSAGE (warning p) w0) as (n1 & E1 & F1 & P1 & R1).
  fold (segment env MESSAGE (warning p)) in *.
  assert (G1 : Forall (of_stage MESSAGE) (do_punitions_log env p :: n1)) by by constructor.
  destruct (segment env MESSAGE (warning p) w0) as [w1 [[]|e1]]; cbn [fst snd] in *.
  2:{ exists (do_punitions_log env p :: n1), [], [].
      split; [apply O; by rewrite !app_nil_r|].
      do 3 (split; [done|]).
      split; [|split; [done | intros; eapply staged_order; eauto]].
      rewrite C, !app_nil_r. by apply prefix_app_r. }
  specialize (R1 eq_refl).
  destruct (segment_staged env PUNISH (punish p) w1) as (n2 & E2 & F2 & P2 & R2).
  fold (segment env PUNISH (punish p)) in *.
  destruct (segment env PUNISH (punish p) w1) as [w2 [[]|e2]]; cbn [fst snd] in *.
  2:{ exists (do_punitions_log env p :: n1), n2, [].
      split; [apply O; by rewrite E2, E1, !app_nil_r, <- !app_assoc|].
      do 3 (split; [done|]).
      split; [|split; [done | intros; eapply staged_order; eauto]].
      rewrite C, !app_nil_r, rcon_calls_app, R1.
      apply prefix_app. by apply prefix_app_r. }
  specialize (R2 eq_refl).
  destruct (segment_staged env KICK (kick p) w2) as (n3 & E3 & F3 & P3 & R3).
  fold (segment env KICK (kick p)) in *.
  exists (do_punitions_log env p :: n1), n2, n3.
  split; [apply O; by rewrite E3, E2, E1, <- !app_assoc|].
  do 3 (split; [done|]). rewrite C, !rcon_calls_app, R1, R2.
  split; [by do 2 apply prefix_app|]. split; [intros H; by rewrite (R3 H)|].
  intros i j ei ej. apply (staged_order (do_punitions_log env p :: n1) n2 n3); done.
Qed.

(** C5: [do_punitions] works through the warnings, then the punishes, then
    the kicks.  The effects it records split into three consecutive
    segments holding only effects of the warning pass, of the punish pass
    and of the kick pass; the commands sent are the first ones of the
    warnings' messages followed by the punishes followed by the kicks (dry
    runs left out); so an effect of the kick pass never precedes one of the
    warning pass: a player with both a warning and a kick is warned before
    being kicked.  And the three collections are worked through to the end:
    when no exception escapes the passes (the channel fails with recognized
    errors only, and the configuration store, the moderators' [enabled()],
    the audit webhook and the callbacks return), the call returns and the
    commands sent are exactly the warnings' messages, then the punishes,
    then the kicks. *)
Theorem do_punitions_order env p w :
  (exists n1 n2 n3,
     new_events w (do_punitions env p w).1 = n1 ++ n2 ++ n3
     /\ Forall (of_stage MESSAGE) n1
     /\ Forall (of_stage PUNISH) n2
     /\ Forall (of_stage KICK) n3
     /\ rcon_calls (n1 ++ n2 ++ n3) `prefix_of` expected_commands p
     /\ ((do_punitions env p w).2 = Ret tt ->
         rcon_calls (n1 ++ n2 ++ n3) = expected_commands p)
     /\ (forall i j ei ej,
           (n1 ++ n2 ++ n3) !! i = Some ei -> (n1 ++ n2 ++ n3) !! j = Some ej ->
           stage ei = Some KICK -> stage ej = Some MESSAGE -> j < i))
  /\ (no_uncaught_failure env ->
      (do_punitions env p w).2 = Ret tt
      /\ rcon_calls (new_events w (do_punitions env p w).1) = expected_commands p).
Proof.
  split; [apply do_punitions_staged|].
  intros H. pose proof (do_punitions_returns env p w H) as R.
  split; [exact R|].
  destruct (do_punitions_staged env p w) as (n1 & n2 & n3 & E & _ & _ & _ & _ & C & _).
  rewrite E. by apply C.
Qed.

Lemma env_reject_recognized tr c e :
  env_command env_reject tr c = Raise e -> recognized e = true.
Proof. destruct c; simpl; intros H; inversion H; done. Qed.

Lemma env_reject_no_uncaught_failure : no_uncaught_failure env_reject.
Proof.
  split; [by eexists|]. split; [by eexists|].
  split; [apply env_reject_recognized|]. by split.
Qed.

(** A warning, a punish and a kick for alice on a channel that rejects the
    punish: the three commands are sent, in that order. *)
Lemma do_punitions_order_witness :
  (do_punitions env_reject {| warning := [alice]; punish := [alice]; kick := [alice] |}
     w_fresh).2 = Ret tt
  /\ rcon_calls
       (new_events w_fresh
          (do_punitions env_reject
             {| warning := [alice]; punish := [alice]; kick := [alice] |} w_fresh).1)
     = [command_of MESSAGE alice; command_of PUNISH alice; command_of KICK alice].
Proof.
  exact (proj2 (do_punitions_order env_reject
                  {| warning := [alice]; punish := [alice]; kick := [alice] |} w_fresh)
           env_reject_no_uncaught_failure).
Defined.

(** A warning and a kick for alice in one aggregate: alice is messaged,
    then kicked, each command followed by its audit record. *)
Example warn_then_kick :
  omap (fun e => match e with
                 | ERcon c => Some (inl c)
                 | EAudit a => Some (inr (audit_command_name a))
                 | _ => None
                 end)
    (new_events w_fresh
       (do_punitions env_quiet {| warning := [alice]; punish := []; kick := [alice] |}
          w_fresh).1)
  = [inl (command_of MESSAGE alice); inr "message_player";
     inl (command_of KICK alice); inr "kick"].
Proof. vm_compute. reflexivity. Qed.

(** The turn of a dry-run entry whose audit, if any, returns: the audit
    record alone. *)
Lemma dry_run_turn env method mods p w :
  dry_run (details p) = true ->
  (forall url, discord_audit_url (details p) = Some url ->
     env_send_to_discord_audit env (trace w) (success_audit method p url) = Ret tt) ->
  punish_one env method mods p w
  = (match discord_audit_url (details p) with
     | Some url => emit (EAudit (success_audit method p url)) w
     | None => w
     end, Ret tt).
Proof.
  intros D A. unfold punish_one, try_except.
  destruct (discord_audit_url (details p)) as [url|] eqn:U.
  - specialize (A url eq_refl).
    destruct method; unfold attempt, audit, when, call, bind, ret; simpl;
      rewrite D, U; simpl; unfold success_audit in A; simpl in A; by rewrite A.
  - destruct method; unfold attempt, audit, when, bind, ret; simpl; by rewrite D, U.
Qed.

Lemma punish_one_about env method mods p :
  steps (appends (about p)) (punish_one env method mods p).
Proof.
  assert (A : forall u c pre a, steps (appends (about p)) (audit env u c (fstr pre p) a)).
  { intros [u|] c pre a; [|apply steps_ret; tc_solve].
    apply steps_call. by exists pre. }
  apply steps_try_except; [tc_solve | |].
  - unfold attempt.
    repeat (apply steps_bind; [tc_solve | | intros _]).
    all: apply steps_when; [tc_solve|].
    all: apply steps_bind; [tc_solve | | intros _; apply A].
    all: apply steps_when; [tc_solve|]; by apply steps_call.
  - intros _. unfold on_failure.
    apply steps_bind; [tc_solve | by apply steps_logger |]. intros _.
    destruct method; simpl; [apply steps_ret; tc_solve | | apply A].
    apply steps_for_each; [tc_solve|]. intros m _. by apply steps_call.
Qed.

Lemma audits_of_dry_runs_app l1 l2 :
  audits_of_dry_runs (l1 ++ l2) = audits_of_dry_runs l1 ++ audits_of_dry_runs l2.
Proof. apply omap_app. Qed.

Lemma audits_of_dry_runs_none p l :
  dry_run (details p) = false -> Forall (about p) l -> audits_of_dry_runs l = [].
Proof.
  intros D. induction 1 as [|e l He _ IH]; [done|].
  change (e :: l) with ([e] ++ l). rewrite audits_of_dry_runs_app, IH, app_nil_r.
  destruct e; try done. destruct He as [pre He].
  unfold audits_of_dry_runs. simpl. by rewrite He, D.
Qed.

(** Under [caught_in_pass] a pass returns and has written the audit
    record of each of its dry-run entries that has an audit target, in the
    order of the entries. *)
Lemma pass_dry_run_audits env method players mods w :
  caught_in_pass env ->
  (_do_punitions env method players mods w).2 = Ret tt
  /\ audits_of_dry_runs (new_events w (_do_punitions env method players mods w).1)
     = dry_run_audits method players.
Proof.
  intros (C & A & F).
  split; [by apply pass_returns|].
  unfold _do_punitions. revert w.
  induction players as [|p ps IH]; intros w.
  - simpl. unfold new_events. by rewrite drop_all.
  - cbn [for_each]. unfold bind.
    pose proof (punish_one_returns env method mods p w C A F) as R.
    pose proof (punish_one_about env method mods p w) as ((n & E & Fn) & _).
    assert (T : audits_of_dry_runs n = dry_run_audits method [p]).
    { destruct (dry_run (details p)) eqn:D.
      - rewrite (dry_run_turn env method mods p w D) in E by (intros; apply A).
        unfold dry_run_audits. simpl. rewrite D.
        destruct (discord_audit_url (details p)) as [url|]; simpl in E.
        + apply app_inv_head in E. subst n.
          unfold audits_of_dry_runs. simpl. by destruct method; simpl; rewrite D.
        + rewrite <- (app_nil_r (trace w)) in E at 1.
          apply app_inv_head in E. by subst n.
      - rewrite (audits_of_dry_runs_none p n D Fn).
        unfold dry_run_audits. simpl. by rewrite D. }
    destruct (punish_one env method mods p w) as [w1 r]. simpl in R, E. subst r.
    specialize (IH w1).
    assert (X : exists m, trace (for_each ps (punish_one env method mods) w1).1
                          = trace w1 ++ m).
    { destruct (pass_staged env method ps mods w1) as (m & Em & _). by exists m. }
    destruct X as [m Em].
    rewrite (new_events_app _ _ _ Em) in IH.
    rewrite (new_events_app w _ (n ++ m)) by (by rewrite Em, E, <- app_assoc).
    rewrite audits_of_dry_runs_app, T, IH.
    unfold dry_run_audits. simpl.
    destruct (dry_run (details p)); [|done].
    by destruct (discord_audit_url (details p)).
Qed.

(** C6: a pending action whose dry-run flag is set sends no command on the
    channel.  When the pass reaches it, the players before it being done,
    and it has an audit target, the first thing recorded for it is the
    audit record of its method, and when the webhook returns that record is
    all its turn leaves and the pass goes on with the next entry; when it
    has no audit target, its turn changes nothing, raises nothing, and the
    pass goes on.  In a whole pass every command sent comes from an entry
    that is no dry run; and when no exception escapes the pass (the
    channel fails with recognized errors only, the audit webhook and the
    callbacks return), it returns having written the audit record of every
    dry-run entry that has an audit target, once each, in the order of the
    entries. *)
Theorem dry_run_no_command env method mods before aplayer rest w w1 :
  dry_run (details aplayer) = true ->
  _do_punitions env method before mods w = (w1, Ret tt) ->
  let players := before ++ aplayer :: rest in
  rcon_calls (new_events w1 (punish_one env method mods aplayer w1).1) = []
  /\ (forall url,
        discord_audit_url (details aplayer) = Some url ->
        (exists more,
           new_events w1 (punish_one env method mods aplayer w1).1
           = EAudit (success_audit method aplayer url) :: more)
        /\ (env_send_to_discord_audit env (trace w1) (success_audit method aplayer url)
            = Ret tt ->
            _do_punitions env method players mods w
            = _do_punitions env method rest mods
                (emit (EAudit (success_audit method aplayer url)) w1)))
  /\ (discord_audit_url (details aplayer) = None ->
      punish_one env method mods aplayer w1 = (w1, Ret tt)
      /\ _do_punitions env method players mods w = _do_punitions env method rest mods w1)
  /\ Forall (fun c => exists p, In p players /\ dry_run (details p) = false
                                /\ c = command_of method p)
       (rcon_calls (new_events w (_do_punitions env method players mods w).1))
  /\ (caught_in_pass env ->
      (_do_punitions env method players mods w).2 = Ret tt
      /\ audits_of_dry_runs (new_events w (_do_punitions env method players mods w).1)
         = dry_run_audits method players).
Proof.
  intros D B players.
  assert (N : forall w2,
             punish_one env method mods aplayer w1 = (w2, Ret tt) ->
             _do_punitions env method players mods w
             = _do_punitions env method rest mods w2).
  { intros w2 P. unfold _do_punitions, players.
    rewrite (for_each_app _ _ _ _ _ B). cbn [for_each]. unfold bind. by rewrite P. }
  split; [|split; [|split; [|split]]].
  - destruct (punish_one_trace env method mods aplayer w1) as (more & E & F).
    rewrite D in E. rewrite (new_events_app _ _ _ E). simpl.
    eapply rcon_calls_none; [|exact F]. intros c [_ H]. by apply (H c).
  - intros url U. split.
    + unfold punish_one, try_except.
      assert (A : exists r, attempt env method aplayer w1
                            = (emit (EAudit (success_audit method aplayer url)) w1, r)).
      { destruct method; unfold attempt, audit, when, call, bind, ret; simpl;
          rewrite D, U; simpl; case_answers; by eexists. }
      destruct A as [r ->]. destruct r as [[]|e].
      * exists []. apply new_events_emit.
      * destruct (recognized e); [|exists []; apply new_events_emit].
        destruct (on_failure_steps env method aplayer mods
                    (emit (EAudit (success_audit method aplayer url)) w1))
          as ((n & En & _) & _).
        exists n. apply new_events_app. rewrite En. simpl. by rewrite <- app_assoc.
    + intros A. apply N. rewrite (dry_run_turn env method mods aplayer w1 D).
      * by rewrite U.
      * intros url' U'. rewrite U in U'. by inversion U'; subst.
  - intros U.
    assert (P : punish_one env method mods aplayer w1 = (w1, Ret tt)).
    { rewrite (dry_run_turn env method mods aplayer w1 D).
      - by rewrite U.
      - intros url U'. rewrite U in U'. discriminate. }
    split; [exact P | by apply N].
  - destruct (pass_staged env method players mods w) as (new & E & _ & P & _).
    rewrite (new_events_app _ _ _ E). apply Forall_forall. intros c Hc.
    destruct P as [k Hk].
    assert (I : In c (map (command_of method) (sent players))).
    { rewrite Hk. apply in_app_iff. left. by apply list_elem_of_In. }
    apply in_map_iff in I as (p & <- & Hp). apply filter_In in Hp as [Hp Hd].
    exists p. split; [done|]. split; [|done]. by destruct (dry_run (details p)).
  - apply pass_dry_run_audits.
Qed.

Lemma env_quiet_caught_in_pass : caught_in_pass env_quiet.
Proof. split; [intros tr c e H; discriminate H|]. by split. Qed.

(** A kick pass over bob, a dry run for alice and alice: the dry run is
    audited between the two kicks and sends nothing; its audit record is
    the only one the pass writes for a dry run. *)
Lemma dry_run_no_command_witness :
  rcon_calls
    (new_events (emit (ERcon (command_of KICK bob)) w_fresh)
       (punish_one env_quiet KICK [mod_a] alice_dry
          (emit (ERcon (command_of KICK bob)) w_fresh)).1) = []
  /\ _do_punitions env_quiet KICK [bob; alice_dry; alice] [mod_a] w_fresh
     = _do_punitions env_quiet KICK [alice] [mod_a]
         (emit (EAudit (success_audit KICK alice_dry hook))
            (emit (ERcon (command_of KICK bob)) w_fresh))
  /\ audits_of_dry_runs
       (new_events w_fresh
          (_do_punitions env_quiet KICK [bob; alice_dry; alice] [mod_a] w_fresh).1)
     = [success_audit KICK alice_dry hook].
Proof.
  pose proof (dry_run_no_command env_quiet KICK [mod_a] [bob] alice_dry [alice]
                w_fresh (emit (ERcon (command_of KICK bob)) w_fresh)
                eq_refl eq_refl) as (H1 & H2 & _ & _ & H5).
  split; [exact H1|]. split.
  - exact (proj2 (H2 hook eq_refl) eq_refl).
  - exact (proj2 (H5 env_quiet_caught_in_pass)).
Defined.

(** A dry-run entry the pass never reaches is not audited: the kick of bob
    fails with an exception the executor does not catch, which ends the
    pass before the entry of alice. *)
Example dry_run_not_reached :
  _do_punitions env_crash KICK [bob; alice_dry] [mod_a] w_fresh
  = (emit (ERcon (command_of KICK bob)) w_fresh, Raise (OtherException "ValueError")).
Proof. vm_compute. reflexivity. Qed.









(** ** The punition engine *)

Lemma moderators_punitions_steps env (P : Event -> Prop) moderators tv squad_name team
    squad gs acc :
  (forall m, P (EMod m (punitions_to_apply_call tv squad_name team squad gs))) ->
  steps (appends P) (moderators_punitions env moderators tv squad_name team squad gs acc).
Proof.
  intros H. unfold moderators_punitions. apply steps_for_; [tc_solve|].
  intros m a _. apply steps_bind; [tc_solve | by apply steps_call |].
  intros o. apply steps_ret; tc_solve.
Qed.

(** C9: in the evaluation of one team, an absent team entry leaves the
    aggregate and the world as they are and raises nothing; an entry whose
    commander is [None] is evaluated as its squads alone, so every
    moderator call recorded for the team is for one of its squads and none
    is for a commander unit. *)
Theorem team_punitions_skips env moderators (team_view : TeamView) gamestate team acc w :
  (team_view !! team = None ->
   team_punitions env moderators team_view gamestate team acc w = (w, Ret acc))
  /\ (forall t, team_view !! team = Some t -> commander t = None ->
      team_punitions env moderators team_view gamestate team acc w
      = for_ (squads t)
          (fun item acc =>
             moderators_punitions env moderators team_view item.1 team item.2
               gamestate acc)
          acc w
      /\ Forall (fun e => exists m item,
                     In item (squads t)
                     /\ e = EMod m (punitions_to_apply_call team_view item.1 team
                                      item.2 gamestate))
           (new_events w (team_punitions env moderators team_view gamestate team acc w).1)).
Proof.
  split.
  - intros H. unfold team_punitions. by rewrite H.
  - intros t H C.
    assert (E : team_punitions env moderators team_view gamestate team acc w
                = for_ (squads t)
                    (fun item acc =>
                       moderators_punitions env moderators team_view item.1 team item.2
                         gamestate acc)
                    acc w).
    { unfold team_punitions. by rewrite H, C. }
    split; [exact E|]. rewrite E.
    eapply appends_new_events.
    apply (steps_for_ (appends _)). intros item a Hitem.
    apply moderators_punitions_steps. intros m. by exists m, item.
Qed.

Lemma team_punitions_skips_witness :
  team_punitions env_quiet [mod_a] tv_axis_only gs0 "allies" PunitionsToApply_new w_fresh
  = (w_fresh, Ret PunitionsToApply_new)
  /\ new_events w_fresh
       (team_punitions env_quiet [mod_a] tv_axis_only gs0 "axis" PunitionsToApply_new
          w_fresh).1
     = [EMod mod_a (punitions_to_apply_call tv_axis_only "able" "axis" squad_able gs0)].
Proof.
  split.
  - apply (proj1 (team_punitions_skips env_quiet [mod_a] tv_axis_only gs0 "allies"
                    PunitionsToApply_new w_fresh)).
    reflexivity.
  - destruct (proj2 (team_punitions_skips env_quiet [mod_a] tv_axis_only gs0 "axis"
                       PunitionsToApply_new w_fresh)
                {| commander := None; squads := [("able", squad_able)] |}
                eq_refl eq_refl) as [E _].
    rewrite E. reflexivity.
Defined.

(** With an empty team view the engine fetches the state and calls no
    moderator. *)
Example engine_on_empty_view :
  get_punitions_to_apply env_quiet [mod_a; mod_b] w_fresh
  = ({| trace := [ELog DEBUG "Getting team info"; ERcon Rcon.get_team_view;
                  ERcon Rcon.get_gamestate];
        redis := ∅; next_id := 0; timers := []; pendingTimers := ∅ |},
     Ret PunitionsToApply_new).
Proof. vm_compute. reflexivity. Qed.

(** ** The deferred notification *)

(** With a channel on which no message gets through, the first of two
    queued messages fails and the second is never attempted. *)
Lemma delivery_stops_counterexample : ~ delivery_continues env_offline bob_closure w_fresh.
Proof.
  intros H. specialize (H bob_rules (or_intror (or_introl eq_refl))).
  vm_compute in H. destruct H as [H|[H|[]]]; discriminate.
Qed.

Lemma deliveries_prefix env (ps : list PunishPlayer) w :
  exists k,
    trace (for_each ps (fun p => rcon_command env (deferred_message p)) w).1
    = trace w ++ map (fun p => ERcon (deferred_message p)) (take k ps).
Proof.
  revert w. induction ps as [|p ps IH]; intros w; simpl.
  - exists 0. by rewrite app_nil_r.
  - unfold bind.
    change (rcon_command env (deferred_message p) w)
      with (emit (ERcon (deferred_message p)) w,
            env_command env (trace w) (deferred_message p)).
    destruct (env_command env (trace w) (deferred_message p)) as [[]|e].
    + destruct (IH (emit (ERcon (deferred_message p)) w)) as [k E].
      exists (S k). rewrite E. simpl. by rewrite <- app_assoc.
    + by exists 1.
Qed.

Lemma notify_player_returns env c w : (notify_player env c w).2 = Ret tt.
Proof.
  unfold notify_player, try_except.
  by destruct (for_each _ _ w) as [w1 [[]|e]].
Qed.

(** C4, as the code has it: [notify_player] never lets a delivery failure
    escape, it returns normally; the messages it sends are the first ones
    of the queued warnings, in order; and when the delivery of one message
    fails, after the ones before it succeeded, that failure is logged and
    the run ends there: the remaining queued messages are not attempted. *)
Theorem notify_player_stops_at_failure env c w :
  (notify_player env c w).2 = Ret tt
  /\ (exists k, rcon_calls (new_events w (notify_player env c w).1)
                = map deferred_message (take k (warning (np_punitions_to_apply c))))
  /\ (forall before p rest w1 e,
        warning (np_punitions_to_apply c) = before ++ p :: rest ->
        for_each before (fun p => rcon_command env (deferred_message p)) w = (w1, Ret tt) ->
        env_command env (trace w1) (deferred_message p) = Raise e ->
        notify_player env c w
        = (emit notify_error (emit (ERcon (deferred_message p)) w1), Ret tt)).
Proof.
  split; [|split].
  - apply notify_player_returns.
  - destruct (deliveries_prefix env (warning (np_punitions_to_apply c)) w) as [k E].
    exists k. unfold notify_player, try_except.
    destruct (for_each _ _ w) as [w1 [[]|e]]; simpl in *.
    + rewrite (new_events_app _ _ _ E). clear E.
      induction (take k _) as [|q qs IH]; [done|]. simpl. by rewrite <- IH.
    + unfold logger. cbn [fst snd any_exception]. fold notify_error.
      apply (f_equal (fun t => t ++ [notify_error])) in E.
      rewrite <- app_assoc in E.
      rewrite (new_events_app _ (emit notify_error w1) _ E), rcon_calls_app. simpl.
      rewrite app_nil_r. clear E.
      induction (take k _) as [|q qs IH]; [done|]. simpl. by rewrite <- IH.
  - intros before p rest w1 e W B C.
    unfold notify_player, try_except. rewrite W, (for_each_app _ _ _ _ _ B).
    simpl. unfold bind.
    change (rcon_command env (deferred_message p) w1)
      with (emit (ERcon (deferred_message p)) w1,
            env_command env (trace w1) (deferred_message p)).
    by rewrite C.
Qed.

Lemma notify_player_stops_at_failure_witness :
  notify_player env_offline bob_closure w_fresh
  = (emit notify_error (emit (ERcon (deferred_message bob)) w_fresh), Ret tt).
Proof.
  apply (proj2 (proj2 (notify_player_stops_at_failure env_offline bob_closure w_fresh))
           [] bob [bob_rules] w_fresh HLLServerError); reflexivity.
Defined.

(** ** The connect hook *)

Lemma on_connected_defer_scheduled name player_id p w :
  warning p <> [] ->
  on_connected_defer name player_id p w = (scheduled name player_id p w, Ret tt).
Proof.
  intros H. unfold on_connected_defer.
  destruct (warning p) as [|a l] eqn:W; [done|]. simpl.
  unfold bind, Timer_new, Timer_start, scheduled, connect_timer, connect_closure,
    set_timers, set_pendingTimers, emit. simpl.
  f_equal. f_equal.
  rewrite <- (Nat.add_0_r (length (timers w))) at 1.
  by rewrite alter_app_r.
Qed.

Lemma on_connected_defer_nothing name player_id p w :
  warning p = [] -> on_connected_defer name player_id p w = (w, Ret tt).
Proof. intros H. unfold on_connected_defer. by rewrite H. Qed.

Lemma on_connected_punitions_steps env name player_id :
  steps (appends idle) (on_connected_punitions env name player_id).
Proof.
  unfold on_connected_punitions.
  apply steps_bind; [tc_solve | intros w; by apply appends_emit |]. intros _.
  apply steps_bind; [tc_solve | |].
  { apply steps_bind; [tc_solve | intros w; by apply appends_emit |].
    intros n. apply steps_ret; tc_solve. }
  intros [|]; simpl.
  2:{ apply steps_bind; [tc_solve | by apply steps_logger |].
      intros _. apply steps_ret; tc_solve. }
  apply steps_bind; [tc_solve | |].
  { eapply steps_mono; [|apply enabled_moderators_steps]. apply setup_idle. }
  intros mods. destruct (length mods =? 0)%nat.
  { apply steps_bind; [tc_solve | by apply steps_logger |].
    intros _. apply steps_ret; tc_solve. }
  apply steps_bind; [tc_solve | |].
  { apply steps_try_except; [tc_solve | |].
    - apply steps_bind; [tc_solve | by apply steps_call |].
      intros d. apply steps_ret; tc_solve.
    - intros _. apply steps_bind; [tc_solve | by apply steps_logger |].
      intros _. apply steps_ret; tc_solve. }
  intros detail. apply steps_bind; [tc_solve | |].
  { apply steps_for_; [tc_solve|]. intros m acc _.
    destruct (env_has_on_connected env (mod_kind m)); [|apply steps_ret; tc_solve].
    apply steps_bind; [tc_solve | by apply steps_call |].
    intros o. apply steps_ret; tc_solve. }
  intros p. apply steps_ret; tc_solve.
Qed.

Lemma notify_player_steps env c : steps (appends (notification_of c)) (notify_player env c).
Proof.
  unfold notify_player. apply steps_try_except; [tc_solve | |].
  - apply steps_for_each; [tc_solve|]. intros a Ha.
    apply steps_call. left. by exists a.
  - intros _. apply steps_logger. by right.
Qed.

Lemma Timer_run_pending env t x w :
  timers w !! t = Some x -> pending x = true ->
  Timer_run env t w = (notify_player env (function x) ;; Timer_finish t) w.
Proof. intros L P. unfold Timer_run. unfold pending in P. by rewrite L, P. Qed.

Lemma Timer_run_records env t x w :
  timers w !! t = Some x -> pending x = true ->
  exists w1,
    notify_player env (function x) w = (w1, Ret tt)
    /\ Timer_run env t w = Timer_finish t w1
    /\ Forall (notification_of (function x)) (new_events w (Timer_run env t w).1)
    /\ timers w1 = timers w.
Proof.
  intros L P. rewrite (Timer_run_pending env t x w L P). unfold bind.
  destruct (notify_player_steps env (function x) w) as (A & _ & T & _).
  pose proof (notify_player_returns env (function x) w) as R.
  destruct (notify_player env (function x) w) as [w1 r]. simpl in *. subst r.
  exists w1. split; [done|]. split; [done|]. split; [|done].
  destruct A as (n & E & F). by rewrite (new_events_app w (Timer_finish t w1).1 n).
Qed.

Lemma on_connected_run env name player_id w w1 p :
  on_connected_punitions env name player_id w = (w1, Ret (Some p)) ->
  on_connected env name player_id w = on_connected_defer name player_id p w1.
Proof. intros H. unfold on_connected. by rewrite (bind_ret_l _ _ _ _ _ H). Qed.

(** C1, as the code has it: once the guards are passed and the hooks have
    returned the merged punitions [p], a connect event with no warning
    ends there; with a warning it creates a timer for [notify_player],
    stores it in [pendingTimers] under the player id and starts it, and
    that timer, when it runs, records nothing but messages of the warnings
    of [p] (and its error log).  The hook itself records no effect of any
    executor pass: no command, no audit record, no callback; the punish
    and kick entries of [p] are not applied. *)
Theorem on_connected_defers_warnings env name player_id w w1 p :
  on_connected_punitions env name player_id w = (w1, Ret (Some p)) ->
  (warning p = [] -> on_connected env name player_id w = (w1, Ret tt))
  /\ (warning p <> [] ->
      on_connected env name player_id w = (scheduled name player_id p w1, Ret tt)
      /\ Forall (notification_of (connect_closure name player_id p))
           (new_events (scheduled name player_id p w1)
              (Timer_run env (length (timers w1)) (scheduled name player_id p w1)).1))
  /\ Forall idle (new_events w (on_connected env name player_id w).1).
Proof.
  intros H.
  pose proof (on_connected_run env name player_id w w1 p H) as E.
  split; [|split].
  - intros W. by rewrite E, on_connected_defer_nothing.
  - intros W. split; [by rewrite E, on_connected_defer_scheduled|].
    edestruct (Timer_run_records env (length (timers w1))
                 (connect_timer name player_id p) (scheduled name player_id p w1))
      as (w2 & _ & _ & F & _); [|done|exact F].
    simpl. by rewrite lookup_app_r, Nat.sub_diag.
  - rewrite E.
    pose proof (on_connected_punitions_steps env name player_id w) as S.
    rewrite H in S. simpl in S.
    destruct S as ((n & En & Fn) & _).
    destruct (warning p) as [|a l] eqn:W.
    + rewrite on_connected_defer_nothing; [|done]. cbn [fst].
      by rewrite (new_events_app w w1 n).
    + rewrite on_connected_defer_scheduled; [|by rewrite W]. cbn [fst].
      rewrite (new_events_app w _ (n ++ [ETimerStart (length (timers w1))])).
      * apply Forall_app. split; [done|]. by repeat constructor.
      * simpl. by rewrite En, <- app_assoc.
Qed.

Lemma In_rcon_calls tr c : In (ERcon c) tr -> In c (rcon_calls tr).
Proof.
  induction tr as [|e tr IH]; [done|]. intros [H|H].
  - subst e. by left.
  - specialize (IH H). change (e :: tr) with ([e] ++ tr).
    rewrite rcon_calls_app. apply in_app_iff. by right.
Qed.

(** Bob connects, the guard being set: the hooks return a warning, a
    punish and a kick for bob. *)
Lemma bob_connects :
  on_connected_punitions env_welcome "bob" bob_id w_ready
  = ((on_connected_punitions env_welcome "bob" bob_id w_ready).1, Ret (Some bob_welcome)).
Proof. vm_compute. reflexivity. Qed.

(** The only call the hook makes on the channel asks for bob's details. *)
Lemma bob_connect_calls :
  rcon_calls (new_events w_ready (on_connected env_welcome "bob" bob_id w_ready).1)
  = [Rcon.get_detailed_player_info "bob"].
Proof. vm_compute. reflexivity. Qed.

(** The punish proposed for bob at the connection is not sent. *)
Lemma connect_drops_punish_counterexample :
  ~ connect_applies_immediately env_welcome "bob" bob_id w_ready.
Proof.
  intros H.
  destruct (H _ _ bob_connects) as [H1 _]; [discriminate|].
  assert (I : In (welcome "bob" bob_id "You are punished") (sent (punish bob_welcome)))
    by (by left).
  apply H1, In_rcon_calls in I. rewrite bob_connect_calls in I.
  destruct I as [I|[]]. discriminate.
Qed.

Lemma on_connected_defers_warnings_witness :
  on_connected env_welcome "bob" bob_id w_ready
  = (scheduled "bob" bob_id bob_welcome
       (on_connected_punitions env_welcome "bob" bob_id w_ready).1, Ret tt)
  /\ Forall idle (new_events w_ready (on_connected env_welcome "bob" bob_id w_ready).1).
Proof.
  pose proof (on_connected_defers_warnings env_welcome "bob" bob_id w_ready _ _
                bob_connects) as (_ & H & F).
  split; [|exact F].
  destruct H as [H _]; [discriminate | exact H].
Defined.

(** ** Two schedulings for one player *)

(** Bob connects a second time before the first timer has run. *)
Lemma bob_reconnects :
  on_connected_punitions env_welcome "bob" bob_id w_bob_once
  = ((on_connected_punitions env_welcome "bob" bob_id w_bob_once).1,
     Ret (Some bob_welcome_back)).
Proof. vm_compute. reflexivity. Qed.

(** Both timers are still to fire. *)
Lemma bob_pending_twice :
  pending_for bob_id w_bob_twice
  = [connect_closure "bob" bob_id bob_welcome;
     connect_closure "bob" bob_id bob_welcome_back].
Proof. vm_compute. reflexivity. Qed.

(** Both timers fire, the first one first: two deliveries, the first
    warning set then the second. *)
Lemma bob_two_deliveries :
  rcon_calls
    (new_events w_bob_twice (Timer_run env_welcome 1 (Timer_run env_welcome 0 w_bob_twice).1).1)
  = [deferred_message (welcome "bob" bob_id "Welcome");
     deferred_message (welcome "bob" bob_id "Welcome back")].
Proof. vm_compute. reflexivity. Qed.

(** After bob connected twice, two timers are pending for bob, not one. *)
Lemma two_deliveries_counterexample :
  ~ one_delivery env_welcome "bob" "bob" bob_id w_ready.
Proof.
  intros H. unfold one_delivery in H. fold w_bob_once in H. fold w_bob_twice in H.
  specialize (H _ _ bob_reconnects). rewrite bob_pending_twice in H.
  specialize (H ltac:(discriminate)). discriminate.
Qed.

Lemma on_connected_scheduled env name player_id w w1 p :
  on_connected_punitions env name player_id w = (w1, Ret (Some p)) ->
  warning p <> [] ->
  on_connected env name player_id w = (scheduled name player_id p w1, Ret tt)
  /\ timers w1 = timers w /\ pendingTimers w1 = pendingTimers w.
Proof.
  intros H W. rewrite (on_connected_run _ _ _ _ _ _ H).
  split; [by apply on_connected_defer_scheduled|].
  pose proof (on_connected_punitions_steps env name player_id w) as (_ & _ & T & P).
  rewrite H in T, P. done.
Qed.

Lemma timers_fire_in_order env t1 x1 t2 x2 w :
  t1 <> t2 ->
  timers w !! t1 = Some x1 -> pending x1 = true ->
  timers w !! t2 = Some x2 -> pending x2 = true ->
  fire_in_order env t1 (function x1) t2 (function x2) w.
Proof.
  intros N L1 P1 L2 P2.
  destruct (Timer_run_records env t1 x1 w L1 P1) as (w3 & N3 & R3 & F3 & T3).
  assert (L : timers (Timer_finish t1 w3).1 !! t2 = Some x2).
  { simpl. rewrite T3. by rewrite list_lookup_alter_ne. }
  destruct (Timer_run_records env t2 x2 (Timer_finish t1 w3).1 L P2)
    as (w4 & N4 & R4 & F4 & T4).
  exists w3, w4.
  split; [done|]. split; [done|]. split.
  { by rewrite R3 in F3. }
  split; [done|]. split; [done|]. by rewrite R4 in F4.
Qed.

(** Both timers fire, in the other order: the second warning set is
    delivered first. *)
Lemma bob_two_deliveries_reversed :
  rcon_calls
    (new_events w_bob_twice (Timer_run env_welcome 0 (Timer_run env_welcome 1 w_bob_twice).1).1)
  = [deferred_message (welcome "bob" bob_id "Welcome back");
     deferred_message (welcome "bob" bob_id "Welcome")].
Proof. vm_compute. reflexivity. Qed.

(** C2, as the code has it: two connect events of one player that both
    schedule a notification leave two timers, both started and neither
    cancelled; [pendingTimers] keeps the second under the player id and no
    longer refers to the first; and each timer, when it runs, calls its
    own [notify_player]: there are two deliveries, one per scheduling, each
    with the warnings of its own connect event.  Nothing orders the two
    timers: whichever fires first, the other one is still to fire after
    it. *)
Theorem two_schedulings_two_deliveries env name1 name2 player_id p1 p2 w wa wb :
  on_connected_punitions env name1 player_id w = (wa, Ret (Some p1)) ->
  warning p1 <> [] ->
  on_connected_punitions env name2 player_id (scheduled name1 player_id p1 wa)
  = (wb, Ret (Some p2)) ->
  warning p2 <> [] ->
  let t1 := length (timers w) in
  let c1 := connect_closure name1 player_id p1 in
  let c2 := connect_closure name2 player_id p2 in
  let w2 := (on_connected env name2 player_id (on_connected env name1 player_id w).1).1 in
  timers w2
  = timers w ++ [connect_timer name1 player_id p1; connect_timer name2 player_id p2]
  /\ pending_for player_id w2 = pending_for player_id w ++ [c1; c2]
  /\ pendingTimers w2 !! player_id = Some (S t1)
  /\ fire_in_order env t1 c1 (S t1) c2 w2
  /\ fire_in_order env (S t1) c2 t1 c1 w2.
Proof.
  intros H1 W1 H2 W2 t1 c1 c2 w2.
  destruct (on_connected_scheduled _ _ _ _ _ _ H1 W1) as (E1 & T1 & _).
  destruct (on_connected_scheduled _ _ _ _ _ _ H2 W2) as (E2 & T2 & P2).
  assert (T : timers w2
              = timers w ++ [connect_timer name1 player_id p1;
                             connect_timer name2 player_id p2]).
  { unfold w2. rewrite E1. cbn [fst]. rewrite E2. cbn [fst]. simpl.
    rewrite T2. simpl. by rewrite T1, <- app_assoc. }
  assert (L : length (timers wb) = S t1).
  { rewrite T2. simpl. rewrite length_app, T1. simpl. unfold t1. lia. }
  assert (L1 : timers w2 !! t1 = Some (connect_timer name1 player_id p1)).
  { rewrite T. by rewrite lookup_app_r, Nat.sub_diag. }
  assert (L2 : timers w2 !! S t1 = Some (connect_timer name2 player_id p2)).
  { rewrite T. rewrite lookup_app_r by (unfold t1; lia).
    by replace (S t1 - length (timers w)) with 1 by (unfold t1; lia). }
  split; [exact T|]. split; [|split; [|split]].
  - unfold pending_for. rewrite T, List.filter_app, map_app. f_equal. simpl.
    by rewrite !String.eqb_refl.
  - unfold w2. rewrite E1. cbn [fst]. rewrite E2. cbn [fst]. simpl.
    by rewrite lookup_insert_eq, L.
  - apply (timers_fire_in_order env t1 (connect_timer name1 player_id p1)
             (S t1) (connect_timer name2 player_id p2) w2); [lia|done..].
  - apply (timers_fire_in_order env (S t1) (connect_timer name2 player_id p2)
             t1 (connect_timer name1 player_id p1) w2); [lia|done..].
Qed.

Lemma two_schedulings_two_deliveries_witness :
  timers w_bob_twice
  = [connect_timer "bob" bob_id bob_welcome; connect_timer "bob" bob_id bob_welcome_back]
  /\ pendingTimers w_bob_twice !! bob_id = Some 1
  /\ fire_in_order env_welcome 1 (connect_closure "bob" bob_id bob_welcome_back)
       0 (connect_closure "bob" bob_id bob_welcome) w_bob_twice.
Proof.
  pose proof (two_schedulings_two_deliveries env_welcome "bob" "bob" bob_id
                bob_welcome bob_welcome_back w_ready _
                (on_connected_punitions env_welcome "bob" bob_id w_bob_once).1
                bob_connects ltac:(discriminate)) as H.
  assert (R : on_connected_punitions env_welcome "bob" bob_id
                (scheduled "bob" bob_id bob_welcome
                   (on_connected_punitions env_welcome "bob" bob_id w_ready).1)
              = ((on_connected_punitions env_welcome "bob" bob_id w_bob_once).1,
                 Ret (Some bob_welcome_back))).
  { vm_compute. reflexivity. }
  destruct (H R ltac:(discriminate)) as (T & _ & P & _ & F).
  exact (conj T (conj P F)).
Defined.

(** ** The moderators of the executor passes *)

#[global] Instance same_ids_preorder : PreOrder same_ids.
Proof.
  split; [by intros w|].
  intros w1 w2 w3 H1 H2. unfold same_ids in *. congruence.
Qed.

Lemma steps_call_ids {A} e (oracle : list Event -> Res A) : steps same_ids (call e oracle).
Proof. by intros w. Qed.

Lemma punish_one_ids env method mods p : steps same_ids (punish_one env method mods p).
Proof.
  assert (A : forall u c m a, steps same_ids (audit env u c m a)).
  { intros [u|] c m a; [apply steps_call_ids | apply steps_ret; tc_solve]. }
  apply steps_try_except; [tc_solve | |].
  - unfold attempt.
    repeat (apply steps_bind; [tc_solve | | intros _]).
    all: apply steps_when; [tc_solve|].
    all: apply steps_bind; [tc_solve | | intros _; apply A].
    all: apply steps_when; [tc_solve|]; apply steps_call_ids.
  - intros _. unfold on_failure.
    apply steps_bind; [tc_solve | by intros w |]. intros _.
    destruct method; simpl; [apply steps_ret; tc_solve | | apply A].
    apply steps_for_each; [tc_solve|]. intros m _. apply steps_call_ids.
Qed.

Lemma punish_one_events env method mods p :
  steps (appends (pass_event mods)) (punish_one env method mods p).
Proof.
  assert (A : forall u c m a, steps (appends (pass_event mods)) (audit env u c m a)).
  { intros [u|] c m a; [by apply steps_call | apply steps_ret; tc_solve]. }
  apply steps_try_except; [tc_solve | |].
  - unfold attempt.
    repeat (apply steps_bind; [tc_solve | | intros _]).
    all: apply steps_when; [tc_solve|].
    all: apply steps_bind; [tc_solve | | intros _; apply A].
    all: apply steps_when; [tc_solve|]; by apply steps_call.
  - intros _. unfold on_failure.
    apply steps_bind; [tc_solve | by apply steps_logger |]. intros _.
    destruct method; simpl; [apply steps_ret; tc_solve | | apply A].
    apply steps_for_each; [tc_solve|]. intros m Hm. by apply steps_call.
Qed.

Lemma punish_failed_targets_app l1 l2 :
  punish_failed_targets (l1 ++ l2) = punish_failed_targets l1 ++ punish_failed_targets l2.
Proof. apply omap_app. Qed.

Lemma targets_of_pass mods l :
  Forall (pass_event mods) l -> Forall (fun m => In m mods) (punish_failed_targets l).
Proof.
  induction 1 as [|e l He _ IH]; [constructor|].
  change (e :: l) with ([e] ++ l). rewrite punish_failed_targets_app.
  apply Forall_app. split; [|exact IH].
  destruct e as [| | | | | | |m c| |]; try (by constructor).
  destruct c; by constructor.
Qed.

Lemma targets_of_stage method l :
  method <> PUNISH -> Forall (of_stage method) l -> punish_failed_targets l = [].
Proof.
  intros N. induction 1 as [|e l He _ IH]; [done|].
  change (e :: l) with ([e] ++ l). rewrite punish_failed_targets_app, IH, app_nil_r.
  destruct e as [| | | | | | |m c| |]; try done. destruct c; try done.
  destruct He as [He|He]; [discriminate | injection He as <-; done].
Qed.

Lemma pass_ids_events env method players mods :
  steps same_ids (_do_punitions env method players mods)
  /\ steps (appends (pass_event mods)) (_do_punitions env method players mods).
Proof.
  split; (apply steps_for_each; [tc_solve|]; intros p _);
    [apply punish_one_ids | apply punish_one_events].
Qed.

Lemma filter_sublist {A} (P : A -> Prop) (f : A -> M bool) xs w w' ys :
  filter_ f xs w = (w', Ret ys) -> Forall P xs -> Forall P ys.
Proof.
  revert w ys. induction xs as [|x xs IH]; intros w ys H F; simpl in H.
  - inversion H. constructor.
  - unfold bind in H. destruct (f x w) as [w1 [b|e]]; [|discriminate].
    destruct (filter_ f xs w1) as [w2 [rest|e]] eqn:E; [|discriminate].
    inversion H; subst. inversion F; subst.
    specialize (IH _ _ E ltac:(done)). destruct b; [by constructor | done].
Qed.

(** [enabled_moderators] constructs four new objects: what it returns are
    some of them, and the next call will construct four others. *)
Lemma enabled_moderators_fresh env w :
  match enabled_moderators env w with
  | (w', Ret mods) =>
      next_id w' = next_id w + 4 /\ Forall (fresh_from (next_id w) 4) mods
  | (w', Raise _) => next_id w <= next_id w' <= next_id w + 4
  end.
Proof.
  unfold enabled_moderators, bind, get_redis_client, load_from_db, call.
  cbn -[filter_].
  repeat match goal with
         | |- context [env_load_from_db env ?t ?k] =>
             destruct (env_load_from_db env t k); cbn -[filter_]; [|lia]
         end.
  match goal with
  | |- context [filter_ ?f ?xs ?w0] =>
      pose proof (steps_filter_ same_ids f xs (fun m => @steps_call_ids bool _ _) w0) as I;
      pose proof (filter_sublist (fresh_from (next_id w) 4) f xs w0) as S;
      destruct (filter_ f xs w0) as [w' [mods|e]]
  end; unfold same_ids in I; simpl in I.
  - split; [lia|]. eapply S; [reflexivity|].
    unfold fresh_from. repeat constructor; simpl; lia.
  - lia.
Qed.

Lemma segment_targets env method players w :
  ((segment env method players w).2 = Ret tt ->
   next_id (segment env method players w).1 = next_id w + 4)
  /\ next_id w <= next_id (segment env method players w).1 <= next_id w + 4
  /\ Forall (fresh_from (next_id w) 4)
       (punish_failed_targets (new_events w (segment env method players w).1)).
Proof.
  unfold segment, bind.
  pose proof (enabled_moderators_fresh env w) as F.
  destruct (enabled_moderators_steps env w) as ((n & E & S) & _).
  assert (T : punish_failed_targets n = []).
  { apply (targets_of_stage MESSAGE); [done|].
    eapply Forall_impl; [exact S|]. intros e He. left. by apply setup_idle. }
  destruct (enabled_moderators env w) as [w1 [mods|e]]; simpl in E.
  - destruct F as [N F].
    destruct (pass_ids_events env method players mods) as [I P].
    specialize (I w1). destruct (P w1) as ((n' & E' & P') & _).
    unfold same_ids in I.
    destruct (_do_punitions env method players mods w1) as [w2 r]. simpl in *.
    split; [intros _; lia|]. split; [lia|].
    rewrite (new_events_app w w2 (n ++ n')) by (by rewrite E', E, <- app_assoc).
    rewrite punish_failed_targets_app, T. simpl.
    apply targets_of_pass in P'.
    apply Forall_forall. intros m Hm.
    apply (proj1 (Forall_forall _ _) P') in Hm. apply list_elem_of_In in Hm.
    by apply (proj1 (Forall_forall _ _) F).
  - simpl. split; [done|]. split; [done|].
    rewrite (new_events_app w w1 n E), T. constructor.
Qed.

Lemma do_punitions_cases env p w :
  match segment env MESSAGE (warning p) (emit (do_punitions_log env p) w) with
  | (w1, Raise e) => do_punitions env p w = (w1, Raise e)
  | (w1, Ret _) =>
      match segment env PUNISH (punish p) w1 with
      | (w2, Raise e) => do_punitions env p w = (w2, Raise e)
      | (w2, Ret _) => do_punitions env p w = segment env KICK (kick p) w2
      end
  end.
Proof.
  rewrite do_punitions_segments. unfold bind.
  destruct (segment env MESSAGE _ _) as [w1 [[]|e1]]; [|done].
  by destruct (segment env PUNISH _ _) as [w2 [[]|e2]].
Qed.

Lemma do_punitions_targets env p w :
  Forall (fresh_from (next_id w + 4) 4)
    (punish_failed_targets (new_events w (do_punitions env p w).1))
  /\ ((do_punitions env p w).2 = Ret tt ->
      next_id (do_punitions env p w).1 = next_id w + 12)
  /\ next_id w <= next_id (do_punitions env p w).1.
Proof.
  pose proof (do_punitions_cases env p w) as C.
  set (w0 := emit (do_punitions_log env p) w) in *.
  assert (N0 : next_id w0 = next_id w) by done.
  assert (O : forall l w', trace w' = trace w0 ++ l ->
                           new_events w w' = do_punitions_log env p :: l).
  { intros l w' E. apply new_events_app. rewrite E. simpl. by rewrite <- app_assoc. }
  assert (L : forall l, punish_failed_targets (do_punitions_log env p :: l)
                        = punish_failed_targets l) by done.
  clearbody w0.
  destruct (segment_staged env MESSAGE (warning p) w0) as (n1 & E1 & S1 & _).
  fold (segment env MESSAGE (warning p)) in E1.
  apply (targets_of_stage MESSAGE) in S1; [|done].
  destruct (segment_targets env MESSAGE (warning p) w0) as (R1 & B1 & _).
  destruct (segment env MESSAGE (warning p) w0) as [w1 [[]|e1]]; cbn [fst snd] in *.
  2:{ rewrite C. cbn [fst snd]. rewrite (O n1 w1 E1), L, S1.
      split; [constructor|]. split; [done | lia]. }
  specialize (R1 eq_refl).
  destruct (segment_staged env PUNISH (punish p) w1) as (n2 & E2 & _).
  fold (segment env PUNISH (punish p)) in E2.
  destruct (segment_targets env PUNISH (punish p) w1) as (R2 & B2 & F2).
  rewrite (new_events_app _ _ _ E2) in F2.
  replace (next_id w1) with (next_id w + 4) in F2 by lia.
  destruct (segment env PUNISH (punish p) w1) as [w2 [[]|e2]]; cbn [fst snd] in *.
  2:{ rewrite C. cbn [fst snd].
      rewrite (O (n1 ++ n2) w2), L, punish_failed_targets_app, S1
        by (by rewrite E2, E1, <- app_assoc).
      split; [exact F2|]. split; [done | lia]. }
  specialize (R2 eq_refl).
  destruct (segment_staged env KICK (kick p) w2) as (n3 & E3 & S3 & _).
  fold (segment env KICK (kick p)) in E3.
  apply (targets_of_stage KICK) in S3; [|done].
  destruct (segment_targets env KICK (kick p) w2) as (R3 & B3 & _).
  rewrite C.
  rewrite (O (n1 ++ n2 ++ n3) _), L, !punish_failed_targets_app, S1, S3, app_nil_r
    by (by rewrite E3, E2, E1, <- !app_assoc).
  split; [exact F2|]. split; [intros H; specialize (R3 H); lia | lia].
Qed.

Lemma do_punitions_chain env p w w1 mods1 w2 w3 mods2 w4 w5 mods3 :
  enabled_moderators env (emit (do_punitions_log env p) w) = (w1, Ret mods1) ->
  _do_punitions env MESSAGE (warning p) mods1 w1 = (w2, Ret tt) ->
  enabled_moderators env w2 = (w3, Ret mods2) ->
  _do_punitions env PUNISH (punish p) mods2 w3 = (w4, Ret tt) ->
  enabled_moderators env w4 = (w5, Ret mods3) ->
  do_punitions env p w = _do_punitions env KICK (kick p) mods3 w5
  /\ Forall (fresh_from (next_id w) 4) mods1
  /\ Forall (fresh_from (next_id w + 4) 4) mods2
  /\ Forall (fresh_from (next_id w + 8) 4) mods3.
Proof.
  intros H1 H2 H3 H4 H5. split.
  - rewrite do_punitions_segments. unfold segment, bind.
    by rewrite H1, H2, H3, H4, H5.
  - pose proof (enabled_moderators_fresh env (emit (do_punitions_log env p) w)) as F1.
    pose proof (enabled_moderators_fresh env w2) as F2.
    pose proof (enabled_moderators_fresh env w4) as F3.
    rewrite H1 in F1. rewrite H3 in F2. rewrite H5 in F3.
    pose proof (proj1 (pass_ids_events env MESSAGE (warning p) mods1) w1) as I1.
    pose proof (proj1 (pass_ids_events env PUNISH (punish p) mods2) w3) as I2.
    rewrite H2 in I1. rewrite H4 in I2. unfold same_ids in *. simpl in *.
    destruct F1 as [N1 F1], F2 as [N2 F2], F3 as [N3 F3].
    replace (next_id w2) with (next_id w + 4) in F2 by lia.
    replace (next_id w4) with (next_id w + 8) in F3 by lia.
    done.
Qed.

Lemma proposers_app l1 l2 : proposers (l1 ++ l2) = proposers l1 ++ proposers l2.
Proof. apply omap_app. Qed.

Lemma proposers_none l : Forall no_proposal l -> proposers l = [].
Proof.
  induction 1 as [|e l He _ IH]; [done|].
  change (e :: l) with ([e] ++ l). rewrite proposers_app, IH, app_nil_r.
  destruct e as [| | | | | | |m c| |]; try done. by destruct c.
Qed.

Lemma targets_none l : Forall no_callback l -> punish_failed_targets l = [].
Proof.
  induction 1 as [|e l He _ IH]; [done|].
  change (e :: l) with ([e] ++ l). rewrite punish_failed_targets_app, IH, app_nil_r.
  destruct e as [| | | | | | |m c| |]; try done. by destruct c.
Qed.

Lemma proposers_of_engine mods l :
  Forall (engine_event mods) l -> Forall (fun m => In m mods) (proposers l).
Proof.
  induction 1 as [|e l He _ IH]; [constructor|].
  change (e :: l) with ([e] ++ l). rewrite proposers_app.
  apply Forall_app. split; [|exact IH].
  destruct e as [| | | | | | |m c| |]; try (by constructor).
  destruct c; by constructor.
Qed.

Lemma get_punitions_to_apply_steps env mods :
  steps (appends (engine_event mods)) (get_punitions_to_apply env mods)
  /\ steps same_ids (get_punitions_to_apply env mods).
Proof.
  assert (A : forall (R : relation World) `{!PreOrder R},
             (forall {T} e (o : list Event -> Res T),
                 engine_event mods e -> steps R (call e o)) ->
             (forall l f, steps R (logger l f)) ->
             steps R (get_punitions_to_apply env mods)).
  { intros R HR Hc Hl.
    assert (Hm : forall tv sn t sq gs acc,
               steps R (moderators_punitions env mods tv sn t sq gs acc)).
    { intros. unfold moderators_punitions. apply steps_for_; [done|].
      intros m a Hm. apply steps_bind; [done | by apply Hc |].
      intros o. by apply steps_ret. }
    unfold get_punitions_to_apply.
    apply steps_bind; [done | apply Hl |]. intros _.
    apply steps_bind; [done | by apply Hc |]. intros tv.
    apply steps_bind; [done | by apply Hc |]. intros gs.
    apply steps_for_; [done|]. intros team acc _. unfold team_punitions.
    destruct (tv !! team) as [t|]; [|by apply steps_ret].
    apply steps_bind; [done | |].
    - destruct (commander t); [apply Hm | by apply steps_ret].
    - intros acc'. apply steps_for_; [done|]. intros item a _. apply Hm. }
  split; apply A; try tc_solve.
  - intros T e o He. by apply steps_call.
  - intros l f. by apply steps_logger.
  - intros T e o _. apply steps_call_ids.
  - by intros l f w.
Qed.

Lemma do_punitions_no_proposal env p : steps (appends no_proposal) (do_punitions env p).
Proof.
  assert (S : forall method players,
             steps (appends no_proposal)
               (mods <- enabled_moderators env ;; _do_punitions env method players mods)).
  { intros method players. apply steps_bind; [tc_solve | |].
    - eapply steps_mono; [|apply enabled_moderators_steps]. by intros [].
    - intros mods. eapply steps_mono;
        [|apply (proj2 (pass_ids_events env method players mods))].
      intros [| | | | | | |m []| |]; done. }
  intros w. rewrite do_punitions_segments. unfold segment.
  trans (emit (do_punitions_log env p) w); [by apply appends_emit|].
  apply (steps_bind (appends no_proposal)); [apply S|]. intros _.
  apply (steps_bind (appends no_proposal)); [apply S|]. intros _. apply S.
Qed.

(** Whatever the server answers, [set_first_run_done] records its [setex]. *)
Lemma set_first_run_done_trace env w :
  trace (set_first_run_done env w).1 = trace w ++ [guard_setex].
Proof.
  unfold set_first_run_done, redis_setex.
  by destruct (env_setex env (trace w) first_run_done_key (4 * 60) "1").
Qed.

(** In a poll cycle, a moderator whose [player_punish_failed] is called was
    constructed after every moderator that proposed punitions. *)
Lemma punish_squads_targets env w m m' :
  In m (proposers (new_events w (punish_squads env w).1)) ->
  In m' (punish_failed_targets (new_events w (punish_squads env w).1)) ->
  mod_id m < mod_id m'.
Proof.
  unfold punish_squads, bind.
  pose proof (enabled_moderators_fresh env w) as F.
  destruct (enabled_moderators_steps env w) as ((n0 & E0 & S0) & _).
  assert (P0 : proposers n0 = []).
  { apply proposers_none. eapply Forall_impl; [exact S0|]. by intros []. }
  assert (T0 : punish_failed_targets n0 = []).
  { apply targets_none. eapply Forall_impl; [exact S0|]. by intros []. }
  destruct (enabled_moderators env w) as [w1 [mods|e]]; cbn [fst snd] in *.
  2:{ rewrite (new_events_app _ _ _ E0), P0. by intros []. }
  destruct F as [N1 F1].
  destruct (length mods =? 0)%nat.
  { unfold logger. cbn [fst].
    rewrite (new_events_app w _ (n0 ++ [ELog DEBUG "No automod is enabled"]))
      by (simpl; by rewrite E0, <- app_assoc).
    rewrite proposers_app, P0. by intros []. }
  destruct (get_punitions_to_apply_steps env mods) as [G I].
  destruct (G w1) as ((n1 & E1 & S1) & _). specialize (I w1). unfold same_ids in I.
  assert (T1 : punish_failed_targets n1 = []).
  { apply targets_none. eapply Forall_impl; [exact S1|].
    intros [| | | | | | |? []| |]; done. }
  apply proposers_of_engine in S1.
  destruct (get_punitions_to_apply env mods w1) as [w2 [p|e]]; cbn [fst snd] in *.
  2:{ rewrite (new_events_app w w2 (n0 ++ n1)) by (by rewrite E1, E0, <- app_assoc).
      rewrite punish_failed_targets_app, T0, T1. by intros _ []. }
  destruct (do_punitions_targets env p w2) as (F2 & _).
  destruct (do_punitions_no_proposal env p w2) as ((n2 & E2 & S2) & _).
  apply proposers_none in S2. rewrite (new_events_app _ _ _ E2) in F2.
  assert (K : forall tail w',
             trace w' = trace (do_punitions env p w2).1 ++ tail ->
             Forall (fun e => no_proposal e /\ no_callback e) tail ->
             In m (proposers (new_events w w')) ->
             In m' (punish_failed_targets (new_events w w')) ->
             mod_id m < mod_id m').
  { intros tail w' Et Ft.
    rewrite (new_events_app w w' (n0 ++ n1 ++ n2 ++ tail))
      by (by rewrite Et, E2, E1, E0, <- !app_assoc).
    assert (Pt : proposers tail = []).
    { apply proposers_none. eapply Forall_impl; [exact Ft|]. by intros e []. }
    assert (Tt : punish_failed_targets tail = []).
    { apply targets_none. eapply Forall_impl; [exact Ft|]. by intros e []. }
    rewrite !proposers_app, !punish_failed_targets_app, P0, S2, Pt, T0, T1, Tt.
    rewrite !app_nil_r. simpl. intros Hm Hm'.
    apply list_elem_of_In in Hm, Hm'.
    apply (proj1 (Forall_forall _ _) S1), list_elem_of_In in Hm.
    apply (proj1 (Forall_forall _ _) F1) in Hm.
    apply (proj1 (Forall_forall _ _) F2) in Hm'.
    unfold fresh_from in *. lia. }
  destruct (do_punitions env p w2) as [w3 [[]|e]]; cbn [fst snd] in *.
  - apply (K [guard_setex]); [apply set_first_run_done_trace|].
    by repeat constructor.
  - apply (K []); [by rewrite app_nil_r | constructor].
Qed.

(** Under [env_toggle] the three passes of one call are handed three
    different sets of moderators. *)
Lemma toggle_constructions :
  exists mods1 mods2 mods3 w5,
    three_constructions env_toggle punish_alice w_fresh mods1 mods2 mods3 w5
    /\ map mod_kind mods1
       = [NoLeaderAutomod; SeedingRulesAutomod; LevelThresholdsAutomod]
    /\ map mod_kind mods2 = [SeedingRulesAutomod; LevelThresholdsAutomod]
    /\ map mod_kind mods3 = [LevelThresholdsAutomod].
Proof.
  unfold three_constructions.
  do 4 eexists. split.
  - do 4 eexists.
    do 4 (split; [vm_compute; reflexivity|]). vm_compute; reflexivity.
  - split; [vm_compute; reflexivity|]. split; vm_compute; reflexivity.
Qed.

(** The callbacks of the example go to the second construction. *)
Lemma toggle_callbacks :
  map (fun m => (mod_kind m, mod_id m))
    (punish_failed_targets
       (new_events w_fresh (do_punitions env_toggle punish_alice w_fresh).1))
  = [(SeedingRulesAutomod, 5); (LevelThresholdsAutomod, 6)].
Proof. vm_compute. reflexivity. Qed.

(** C10: one [do_punitions] call runs [enabled_moderators] three times,
    once before each pass, and every run loads the configuration again and
    constructs four new moderator objects: when the call returns, twelve
    objects were constructed, the three passes were handed moderators of
    the first, second and third construction, and every
    [player_punish_failed] callback went to an object of the second one.
    In a poll cycle the objects that proposed the punitions are older than
    every object called back, so the callbacks never reach the proposing
    instances.  And the kinds of moderators handed to the warning, punish
    and kick passes of one call can differ pairwise, when the stored
    configuration changes between the reads. *)
Theorem do_punitions_rebuilds_moderators :
  (forall env p w,
     Forall (fresh_from (next_id w + 4) 4)
       (punish_failed_targets (new_events w (do_punitions env p w).1))
     /\ ((do_punitions env p w).2 = Ret tt ->
         next_id (do_punitions env p w).1 = next_id w + 12)
     /\ (forall mods1 mods2 mods3 w5,
           three_constructions env p w mods1 mods2 mods3 w5 ->
           do_punitions env p w = _do_punitions env KICK (kick p) mods3 w5
           /\ Forall (fresh_from (next_id w) 4) mods1
           /\ Forall (fresh_from (next_id w + 4) 4) mods2
           /\ Forall (fresh_from (next_id w + 8) 4) mods3))
  /\ (forall env w m m',
        In m (proposers (new_events w (punish_squads env w).1)) ->
        In m' (punish_failed_targets (new_events w (punish_squads env w).1)) ->
        mod_id m < mod_id m')
  /\ (exists env p w mods1 mods2 mods3 w5,
        three_constructions env p w mods1 mods2 mods3 w5
        /\ map mod_kind mods1 <> map mod_kind mods2
        /\ map mod_kind mods2 <> map mod_kind mods3
        /\ map mod_kind mods1 <> map mod_kind mods3).
Proof.
  split; [|split].
  - intros env p w.
    destruct (do_punitions_targets env p w) as (F & N & _).
    split; [exact F|]. split; [exact N|].
    intros mods1 mods2 mods3 w5 (w1 & w2 & w3 & w4 & H1 & H2 & H3 & H4 & H5).
    by apply (do_punitions_chain env p w w1 mods1 w2 w3 mods2 w4 w5 mods3).
  - apply punish_squads_targets.
  - destruct toggle_constructions as (mods1 & mods2 & mods3 & w5 & T & K1 & K2 & K3).
    exists env_toggle, punish_alice, w_fresh, mods1, mods2, mods3, w5.
    split; [exact T|]. rewrite K1, K2, K3. by repeat split.
Qed.

Lemma do_punitions_rebuilds_moderators_witness :
  Forall (fresh_from 4 4)
    (punish_failed_targets
       (new_events w_fresh (do_punitions env_toggle punish_alice w_fresh).1))
  /\ next_id (do_punitions env_toggle punish_alice w_fresh).1 = 12.
Proof.
  destruct (proj1 do_punitions_rebuilds_moderators env_toggle punish_alice w_fresh)
    as (H1 & H2 & _).
  split; [exact H1|]. apply H2. vm_compute. reflexivity.
Defined.

(** ** The executor *)

(** X1: an action that is no dry run and whose command the channel accepts
    records the command, then its audit record when an audit target is
    configured and the webhook returns, and nothing else: no warning is
    logged and no moderator is called back. *)
Theorem command_then_audit env method mods aplayer w :
  dry_run (details aplayer) = false ->
  env_command env (trace w) (command_of method aplayer) = Ret tt ->
  (forall url,
     discord_audit_url (details aplayer) = Some url ->
     env_send_to_discord_audit env (trace w ++ [ERcon (command_of method aplayer)])
       (success_audit method aplayer url) = Ret tt) ->
  punish_one env method mods aplayer w
  = (match discord_audit_url (details aplayer) with
     | Some url =>
         emit (EAudit (success_audit method aplayer url))
           (emit (ERcon (command_of method aplayer)) w)
     | None => emit (ERcon (command_of method aplayer)) w
     end, Ret tt).
Proof.
  intros D C A. unfold punish_one, try_except.
  destruct method; unfold attempt, audit, when, rcon_command, call, bind, ret;
    simpl in *; rewrite D; simpl; rewrite C;
    (destruct (discord_audit_url (details aplayer)) as [url|]; simpl; [|done]);
    specialize (A url eq_refl); unfold success_audit in A; simpl in A;
    by rewrite A.
Qed.

Lemma command_then_audit_witness :
  punish_one env_quiet PUNISH [mod_a] alice w_fresh
  = (emit (EAudit (success_audit PUNISH alice hook))
       (emit (ERcon (command_of PUNISH alice)) w_fresh), Ret tt).
Proof.
  apply (command_then_audit env_quiet PUNISH [mod_a] alice w_fresh); reflexivity.
Defined.

(** X2: a failure of the command that is neither a [CommandFailedError]
    nor an [HLLServerError] is not caught: it ends the pass at that player,
    after the players before it, and no later player of the pass is
    processed; raised in the warning pass, it ends [do_punitions] before
    any punish or kick. *)
Theorem pass_aborts_on_unrecognized env method mods before aplayer rest w w1 e :
  _do_punitions env method before mods w = (w1, Ret tt) ->
  dry_run (details aplayer) = false ->
  env_command env (trace w1) (command_of method aplayer) = Raise e ->
  recognized e = false ->
  _do_punitions env method (before ++ aplayer :: rest) mods w
  = (emit (ERcon (command_of method aplayer)) w1, Raise e)
  /\ (forall p w0 w2,
        segment env MESSAGE (warning p) (emit (do_punitions_log env p) w0) = (w2, Raise e) ->
        do_punitions env p w0 = (w2, Raise e)).
Proof.
  intros B D C R. split.
  - unfold _do_punitions in *. rewrite (for_each_app _ _ _ _ _ B). simpl.
    unfold bind, punish_one, try_except.
    assert (A : attempt env method aplayer w1
                = (emit (ERcon (command_of method aplayer)) w1, Raise e)).
    { destruct method; unfold attempt, when, rcon_command, call, bind; simpl in *;
        rewrite D; simpl; by rewrite C. }
    by rewrite A, R.
  - intros p w0 w2 H. rewrite do_punitions_segments. unfold bind. by rewrite H.
Qed.

Lemma pass_aborts_on_unrecognized_witness :
  _do_punitions env_crash KICK [alice_dry; bob; alice] [mod_a] w_fresh
  = (emit (ERcon (command_of KICK bob))
       (emit (EAudit (success_audit KICK alice_dry hook)) w_fresh),
     Raise (OtherException "ValueError")).
Proof.
  apply (proj1 (pass_aborts_on_unrecognized env_crash KICK [mod_a] [alice_dry] bob
                  [alice] w_fresh
                  (emit (EAudit (success_audit KICK alice_dry hook)) w_fresh)
                  (OtherException "ValueError")
                  eq_refl eq_refl eq_refl eq_refl)).
Defined.

(** X3: a recognized failure of a message is only logged; a recognized
    failure of a kick is logged and, when an audit target is configured,
    written to the audit as a kick that will be retried; that audit call is
    made outside the [try], so its own outcome is the outcome of the
    player's turn.  Neither calls a moderator back. *)
Theorem message_and_kick_failures env mods aplayer w e :
  dry_run (details aplayer) = false ->
  recognized e = true ->
  (env_command env (trace w) (command_of MESSAGE aplayer) = Raise e ->
   punish_one env MESSAGE mods aplayer w
   = (emit retry_warning (emit (ERcon (command_of MESSAGE aplayer)) w), Ret tt))
  /\ (env_command env (trace w) (command_of KICK aplayer) = Raise e ->
      punish_one env KICK mods aplayer w
      = match discord_audit_url (details aplayer) with
        | Some url =>
            (emit (EAudit (kick_failed_audit aplayer url))
               (emit retry_warning (emit (ERcon (command_of KICK aplayer)) w)),
             env_send_to_discord_audit env
               (trace w ++ [ERcon (command_of KICK aplayer); retry_warning])
               (kick_failed_audit aplayer url))
        | None =>
            (emit retry_warning (emit (ERcon (command_of KICK aplayer)) w), Ret tt)
        end).
Proof.
  intros D R. split; intros C.
  - unfold punish_one, try_except, attempt, when, rcon_command, call, bind.
    simpl in *. rewrite D. simpl. by rewrite C, R.
  - unfold punish_one, try_except, attempt, when, rcon_command, call, bind.
    simpl in *. rewrite D. simpl. rewrite C, R.
    unfold on_failure, bind, logger, audit, call. simpl.
    destruct (discord_audit_url (details aplayer)) as [url|]; [|done].
    simpl. by rewrite <- app_assoc.
Qed.

Lemma message_and_kick_failures_witness :
  punish_one env_offline MESSAGE [mod_a] alice w_fresh
  = (emit retry_warning (emit (ERcon (command_of MESSAGE alice)) w_fresh), Ret tt).
Proof.
  apply (proj1 (message_and_kick_failures env_offline [mod_a] alice w_fresh
                  HLLServerError eq_refl eq_refl)).
  reflexivity.
Defined.

(** X4: with nothing to apply, [do_punitions] still runs
    [enabled_moderators] before each of its three passes, and records
    nothing else besides its debug message: no command, no audit record,
    no callback. *)
Theorem do_punitions_nothing_to_apply env p w :
  warning p = [] -> punish p = [] -> kick p = [] ->
  do_punitions env p w
  = (enabled_moderators env ;; enabled_moderators env ;;
     mods <- enabled_moderators env ;; ret tt) (emit (do_punitions_log env p) w)
  /\ Forall (fun e => setup e \/ e = do_punitions_log env p)
       (new_events w (do_punitions env p w).1).
Proof.
  intros W P K.
  assert (E : do_punitions env p w
              = (enabled_moderators env ;; enabled_moderators env ;;
                 mods <- enabled_moderators env ;; ret tt)
                  (emit (do_punitions_log env p) w)).
  { rewrite do_punitions_segments. unfold segment. rewrite W, P, K.
    unfold bind, _do_punitions. simpl.
    repeat match goal with
           | |- context [enabled_moderators env ?x] =>
               destruct (enabled_moderators env x) as [? [?|?]]; simpl; try done
           end. }
  split; [exact E|]. rewrite E.
  assert (S : steps (appends (fun e => setup e \/ e = do_punitions_log env p))
                (enabled_moderators env ;; enabled_moderators env ;;
                 mods <- enabled_moderators env ;; ret tt)).
  { assert (S1 : steps (appends (fun e => setup e \/ e = do_punitions_log env p))
                   (enabled_moderators env)).
    { eapply steps_mono; [|apply enabled_moderators_steps]. by left. }
    repeat (apply steps_bind; [tc_solve | exact S1 | intros ?]).
    apply steps_ret; tc_solve. }
  assert (A : appends (fun e => setup e \/ e = do_punitions_log env p) w
                ((enabled_moderators env ;; enabled_moderators env ;;
                  mods <- enabled_moderators env ;; ret tt)
                   (emit (do_punitions_log env p) w)).1).
  { etrans; [apply appends_emit; by right | apply S]. }
  apply (appends_new_events _ _ _ A).
Qed.

Lemma do_punitions_nothing_to_apply_witness :
  rcon_calls (new_events w_fresh (do_punitions env_quiet PunitionsToApply_new w_fresh).1)
  = [].
Proof.
  destruct (do_punitions_nothing_to_apply env_quiet PunitionsToApply_new w_fresh
              eq_refl eq_refl eq_refl) as [_ F].
  eapply rcon_calls_none; [|exact F].
  intros c [H|H]; [exact H | discriminate].
Defined.

(** ** The moderators in force *)

(** X5: a run of [enabled_moderators] that returns has loaded the four
    configurations in the order level thresholds, no leader, seeding, solo
    tank, constructed the no-leader, seeding, level and solo-tank
    moderators in that order, each with the configuration the store
    answered for its kind, and asked each one, in that order, whether it
    is enabled; what it returns are the moderators whose [enabled()]
    answered true, in construction order. *)
Theorem enabled_moderators_result env w w' mods :
  enabled_moderators env w = (w', Ret mods) ->
  exists c_level c_leader c_seeding c_tank b1 b2 b3 b4,
    let ms := constructed (next_id w) c_level c_leader c_seeding c_tank in
    load_answers env (trace w ++ [EGetRedisClient])
      [LevelThresholdsAutomod; NoLeaderAutomod; SeedingRulesAutomod; NoSoloTankAutomod]
    = [Ret c_level; Ret c_leader; Ret c_seeding; Ret c_tank]
    /\ enabled_answers env (trace w ++ moderators_header ++ map ENew ms) ms
       = [Ret b1; Ret b2; Ret b3; Ret b4]
    /\ new_events w w' = moderators_header ++ map ENew ms ++ map EEnabled ms
    /\ next_id w' = next_id w + 4
    /\ mods = kept ms [b1; b2; b3; b4]
    /\ map mod_kind mods
       `sublist_of` [NoLeaderAutomod; SeedingRulesAutomod; LevelThresholdsAutomod;
                     NoSoloTankAutomod].
Proof.
  cbv [enabled_moderators bind get_redis_client load_from_db new_moderator
         enabled call ret filter_].
  simpl.
  repeat match goal with
         | |- context [env_load_from_db env ?t ?k] =>
             let L := fresh "L" in
             destruct (env_load_from_db env t k) as [?c|?] eqn:L; simpl; [|discriminate]
         end.
  repeat match goal with
         | |- context [env_enabled env ?t ?m] =>
             let B := fresh "B" in
             destruct (env_enabled env t m) as [?b|?] eqn:B; simpl; [|discriminate]
         end.
  intros H. inversion H; subst; clear H.
  exists c, c0, c1, c2, b, b0, b1, b2. split; [|split; [|split; [|split; [|split]]]].
  - reflexivity.
  - clear L L0 L1 L2. simpl. rewrite <- ?app_assoc in *. simpl in *.
    by rewrite B, B0, B1, B2.
  - apply new_events_app. simpl. rewrite <- !app_assoc. reflexivity.
  - simpl. lia.
  - simpl. reflexivity.
  - repeat match goal with b : bool |- _ => destruct b end; simpl;
      repeat (first [by constructor | constructor]).
Qed.

Lemma enabled_moderators_result_witness :
  exists c_level c_leader c_seeding c_tank,
    (enabled_moderators env_welcome w_ready).2
    = Ret (kept (constructed 0 c_level c_leader c_seeding c_tank)
             [false; true; false; false]).
Proof.
  destruct (enabled_moderators_result env_welcome w_ready
              (enabled_moderators env_welcome w_ready).1
              [{| mod_kind := SeedingRulesAutomod; mod_id := 1;
                  mod_config := {| config_revision := 3 |} |}])
    as (c1 & c2 & c3 & c4 & b1 & b2 & b3 & b4 & _ & A & _ & _ & E & _).
  { vm_compute. reflexivity. }
  exists c1, c2, c3, c4.
  change (next_id w_ready) with 0 in E.
  simpl in A. injection A as <- <- <- <-.
  rewrite <- E. vm_compute. reflexivity.
Defined.

(** ** The engine *)

Lemma follows_ret {A} (a : A) w : follows [] w (ret a w).
Proof. exists []. simpl. by rewrite app_nil_r. Qed.

Lemma follows_bind {A B} (c : M A) (k : A -> M B) e1 e2 w :
  follows e1 w (c w) ->
  (forall a w1, c w = (w1, Ret a) -> follows e2 w1 (k a w1)) ->
  follows (e1 ++ e2) w (bind c k w).
Proof.
  intros (n1 & E1 & P1 & R1) Hk. unfold bind.
  destruct (c w) as [w1 [a|e]] eqn:C; simpl in *.
  - destruct (Hk a w1 eq_refl) as (n2 & E2 & P2 & R2).
    rewrite (R1 a eq_refl) in *.
    exists (e1 ++ n2). split; [by rewrite E2, E1, <- app_assoc|].
    split; [by apply prefix_app|]. intros b Hb. by rewrite (R2 b Hb).
  - exists n1. split; [done|]. split; [by apply prefix_app_r | done].
Qed.

Lemma follows_for_ {A S} (f : A -> list Event) (xs : list A) (body : A -> S -> M S) acc w :
  (forall x acc w, follows (f x) w (body x acc w)) ->
  follows (flat_map f xs) w (for_ xs body acc w).
Proof.
  intros H. revert acc w. induction xs as [|x xs IH]; intros acc w; simpl.
  - apply follows_ret.
  - apply follows_bind; [apply H|]. intros a w1 _. apply IH.
Qed.

Lemma follows_call {A} e (o : list Event -> Res A) w : follows [e] w (call e o w).
Proof. exists [e]. by split. Qed.

Lemma flat_map_singleton {A B} (f : A -> B) xs : flat_map (fun x => [f x]) xs = map f xs.
Proof. induction xs as [|x xs IH]; [done|]. simpl. by rewrite IH. Qed.

Lemma moderators_punitions_follows env mods tv sn team sq gs acc w :
  follows (unit_calls mods tv gs team (sn, sq)) w
    (moderators_punitions env mods tv sn team sq gs acc w).
Proof.
  unfold unit_calls, moderators_punitions. rewrite <- flat_map_singleton.
  apply follows_for_. intros m a w1.
  change [EMod m (punitions_to_apply_call tv (sn, sq).1 team (sn, sq).2 gs)]
    with ([EMod m (punitions_to_apply_call tv sn team sq gs)] ++ []).
  apply follows_bind; [apply follows_call|]. intros o w2 _. apply follows_ret.
Qed.

Lemma team_punitions_follows env mods tv gs team acc w :
  follows (team_calls mods tv gs team) w (team_punitions env mods tv gs team acc w).
Proof.
  unfold team_calls, team_punitions.
  destruct (tv !! team) as [t|]; [|apply follows_ret].
  unfold units. rewrite flat_map_app. apply follows_bind.
  - destruct (commander t) as [c|]; [|apply follows_ret]. simpl.
    rewrite app_nil_r. apply moderators_punitions_follows.
  - intros acc1 w1 _. apply follows_for_. intros [sn sq] a w2.
    apply moderators_punitions_follows.
Qed.

(** X6: once the team view and the game state are fetched,
    [get_punitions_to_apply] consults every moderator for every unit: for
    allies then for axis, for the commander (when the team has one) then
    for each squad in the order of the team view, each moderator in the
    order of the list.  When it returns the moderator calls are exactly
    these; when an exception ends it they are the first of these. *)
Theorem engine_consults_every_unit env mods w tv gs :
  env_get_team_view env (trace w ++ [ELog DEBUG "Getting team info"]) = Ret tv ->
  env_get_gamestate env
    (trace w ++ [ELog DEBUG "Getting team info"; ERcon Rcon.get_team_view]) = Ret gs ->
  exists calls,
    new_events w (get_punitions_to_apply env mods w).1 = engine_header ++ calls
    /\ calls `prefix_of` engine_calls mods tv gs
    /\ (forall p, (get_punitions_to_apply env mods w).2 = Ret p ->
                  calls = engine_calls mods tv gs).
Proof.
  intros T G.
  set (w3 := emit (ERcon Rcon.get_gamestate)
               (emit (ERcon Rcon.get_team_view)
                  (emit (ELog DEBUG "Getting team info") w))).
  assert (E : get_punitions_to_apply env mods w
              = for_ ["allies"; "axis"] (team_punitions env mods tv gs)
                  PunitionsToApply_new w3).
  { unfold get_punitions_to_apply, bind, logger, rcon_get_team_view,
      rcon_get_gamestate, call. simpl. rewrite T. simpl.
    rewrite <- app_assoc. simpl. by rewrite G. }
  rewrite E.
  assert (F : follows (engine_calls mods tv gs) w3
                (for_ ["allies"; "axis"] (team_punitions env mods tv gs)
                   PunitionsToApply_new w3)).
  { unfold engine_calls.
    replace (team_calls mods tv gs "allies" ++ team_calls mods tv gs "axis")
      with (flat_map (team_calls mods tv gs) ["allies"; "axis"])
      by (simpl; by rewrite app_nil_r).
    apply follows_for_. intros team a w1. apply team_punitions_follows. }
  destruct F as (calls & Ec & P & R).
  exists calls. split; [|by split].
  apply new_events_app. rewrite Ec. simpl. by rewrite <- !app_assoc.
Qed.

Lemma engine_consults_every_unit_witness :
  exists calls,
    new_events w_fresh (get_punitions_to_apply env_axis [mod_a; mod_b] w_fresh).1
    = engine_header ++ calls
    /\ calls `prefix_of`
         [EMod mod_a (punitions_to_apply_call tv_axis_only "able" "axis" squad_able gs0);
          EMod mod_b (punitions_to_apply_call tv_axis_only "able" "axis" squad_able gs0)].
Proof.
  destruct (engine_consults_every_unit env_axis [mod_a; mod_b] w_fresh tv_axis_only gs0
              eq_refl eq_refl) as (calls & E & P & _).
  exists calls. split; [exact E|].
  replace (engine_calls [mod_a; mod_b] tv_axis_only gs0)
    with [EMod mod_a (punitions_to_apply_call tv_axis_only "able" "axis" squad_able gs0);
          EMod mod_b (punitions_to_apply_call tv_axis_only "able" "axis" squad_able gs0)]
    in P; [exact P|].
  reflexivity.
Defined.

(** X7: the engine does not guard a moderator's evaluation: when a
    moderator's [punitions_to_apply] raises, whatever the exception, the
    loop over the moderators ends with it at once and the moderators after
    it are not consulted for the unit. *)
Theorem moderator_failure_ends_unit env before m rest tv sn team sq gs acc acc1 w w1 e :
  moderators_punitions env before tv sn team sq gs acc w = (w1, Ret acc1) ->
  env_punitions_to_apply env (trace w1) m tv sn team sq gs = Raise e ->
  moderators_punitions env (before ++ m :: rest) tv sn team sq gs acc w
  = (emit (EMod m (punitions_to_apply_call tv sn team sq gs)) w1, Raise e).
Proof.
  unfold moderators_punitions. revert acc w.
  induction before as [|b before IH]; intros acc w B C; simpl in *.
  - inversion B; subst. unfold bind, mod_punitions_to_apply, call. by rewrite C.
  - unfold bind in *.
    destruct (mod_punitions_to_apply env b tv sn team sq gs w) as [w2 [o|e2]];
      [|discriminate].
    simpl in *. by apply IH.
Qed.

Lemma moderator_failure_ends_unit_witness :
  moderators_punitions env_faulty [mod_a; mod_b; mod_a] tv_axis_only "able" "axis"
    squad_able gs0 PunitionsToApply_new w_fresh
  = (emit (EMod mod_b (punitions_to_apply_call tv_axis_only "able" "axis" squad_able gs0))
       (emit (EMod mod_a (punitions_to_apply_call tv_axis_only "able" "axis" squad_able gs0))
          w_fresh),
     Raise (OtherException "KeyError")).
Proof.
  apply (moderator_failure_ends_unit env_faulty [mod_a] mod_b [mod_a] tv_axis_only
           "able" "axis" squad_able gs0 PunitionsToApply_new PunitionsToApply_new
           w_fresh
           (emit (EMod mod_a (punitions_to_apply_call tv_axis_only "able" "axis"
                                squad_able gs0)) w_fresh)
           (OtherException "KeyError")); reflexivity.
Defined.

(** ** The poll cycle and the guard *)

Lemma do_punitions_executor env p : steps (appends executor_event) (do_punitions env p).
Proof.
  assert (S : forall method players,
             steps (appends executor_event)
               (mods <- enabled_moderators env ;; _do_punitions env method players mods)).
  { intros method players. apply steps_bind; [tc_solve | |].
    - eapply steps_mono; [|apply enabled_moderators_steps]. by intros [].
    - intros mods. eapply steps_mono;
        [|apply (proj2 (pass_ids_events env method players mods))].
      intros [| | | | | | |m []| |]; done. }
  intros w. rewrite do_punitions_segments. unfold segment.
  trans (emit (do_punitions_log env p) w); [by apply appends_emit|].
  apply (steps_bind (appends executor_event)); [apply S|]. intros _.
  apply (steps_bind (appends executor_event)); [apply S|]. intros _. apply S.
Qed.

Lemma executor_no_setex e : executor_event e -> no_setex e.
Proof. by destruct e as [|[]| | | | | | | |]. Qed.

(** The poll cycle up to, and without, [set_first_run_done]. *)
Lemma cycle_body_quiet env :
  steps (appends no_setex)
    (mods <- enabled_moderators env ;;
     punitions_to_apply <- get_punitions_to_apply env mods ;;
     do_punitions env punitions_to_apply).
Proof.
  apply steps_bind; [tc_solve | |].
  { eapply steps_mono; [|apply enabled_moderators_steps]. by intros []. }
  intros mods. apply steps_bind; [tc_solve | |].
  { eapply steps_mono; [|apply (proj1 (get_punitions_to_apply_steps env mods))].
    intros [|[]| | | | | |m []| |]; done. }
  intros p. eapply steps_mono; [|apply do_punitions_executor].
  apply executor_no_setex.
Qed.

(** X8: a poll cycle that returns with at least one moderator enabled has
    marked the warm-up guard as its last effect, and only then: the key
    holds "1" with a time to live of 240 seconds and [is_first_run_done]
    answers true; with no moderator enabled the store is left as it was. *)
Theorem punish_squads_marks_guard env w w' :
  punish_squads env w = (w', Ret tt) ->
  (exists w1, enabled_moderators env w = (w1, Ret []) /\ redis w' = redis w
              /\ Forall no_setex (new_events w w'))
  \/ (redis w' = <[first_run_done_key := (240%Z, "1")]> (redis w)
      /\ (is_first_run_done w').2 = Ret true
      /\ exists before,
           new_events w w' = before ++ [guard_setex] /\ Forall no_setex before).
Proof.
  intros H. unfold punish_squads, bind in H.
  pose proof (cycle_body_quiet env w) as Q. unfold bind in Q.
  pose proof (enabled_moderators_steps env w) as S.
  destruct (enabled_moderators env w) as [w1 [mods|e]]; [|discriminate].
  destruct mods as [|m mods]; simpl in H.
  - left. exists w1. split; [done|]. inversion H; subst.
    destruct S as ((n & E & F) & R & _). simpl in *. split; [done|].
    rewrite (new_events_app w _ (n ++ [ELog DEBUG "No automod is enabled"]))
      by (simpl; by rewrite E, <- app_assoc).
    apply Forall_app. split; [|by repeat constructor].
    eapply Forall_impl; [exact F|]. by intros [].
  - right.
    destruct (get_punitions_to_apply env (m :: mods) w1) as [w2 [p|e]]; [|discriminate].
    destruct (do_punitions env p w2) as [w3 [[]|e]]; [|discriminate].
    simpl in Q. destruct Q as ((n & E & F) & R & _).
    unfold set_first_run_done, redis_setex in H.
    destruct (env_setex env (trace w3) first_run_done_key (4 * 60) "1");
      [|discriminate].
    inversion H; subst. simpl.
    rewrite R. split; [done|]. split.
    + unfold is_first_run_done, bind, redis_exists. simpl.
      by rewrite lookup_insert_eq.
    + exists n. split; [|done]. apply new_events_app. simpl.
      by rewrite E, <- app_assoc.
Qed.

Lemma level_cycle_returns :
  punish_squads env_level w_fresh = ((punish_squads env_level w_fresh).1, Ret tt).
Proof. vm_compute. reflexivity. Qed.

Lemma punish_squads_marks_guard_witness :
  (is_first_run_done (punish_squads env_level w_fresh).1).2 = Ret true.
Proof.
  destruct (punish_squads_marks_guard env_level w_fresh _ level_cycle_returns)
    as [(w1 & E & _)|(_ & H & _)]; [|exact H].
  exfalso. vm_compute in E. discriminate.
Defined.

(** X9: a poll cycle that ends with an exception failed either before
    its last statement, and then it made no [setex] and left the redis
    store and the answer of the guard as they were, or in
    [set_first_run_done] itself: then the [setex] was issued, as the last
    effect of the cycle, and the exception is the one the server answered
    it with. *)
Theorem punish_squads_failure_and_guard env w w' e :
  punish_squads env w = (w', Raise e) ->
  (redis w' = redis w
   /\ Forall no_setex (new_events w w')
   /\ (is_first_run_done w').2 = (is_first_run_done w).2)
  \/ (exists before,
        new_events w w' = before ++ [guard_setex]
        /\ Forall no_setex before
        /\ env_setex env (trace w ++ before) first_run_done_key 240 "1" = Raise e).
Proof.
  intros H. unfold punish_squads, bind in H.
  pose proof (cycle_body_quiet env w) as Q. unfold bind in Q.
  assert (K : forall w0, appends no_setex w w0 ->
                redis w0 = redis w
                /\ Forall no_setex (new_events w w0)
                /\ (is_first_run_done w0).2 = (is_first_run_done w).2).
  { intros w0 A. destruct (appends_new_events _ _ _ A) as [_ F].
    destruct A as (_ & R & _). split; [exact R|]. split; [exact F|].
    unfold is_first_run_done, bind, redis_exists. simpl. by rewrite R. }
  destruct (enabled_moderators env w) as [w1 [mods|e1]].
  2:{ left. inversion H; subst. by apply K. }
  destruct mods as [|m mods]; simpl in H; [discriminate|].
  destruct (get_punitions_to_apply env (m :: mods) w1) as [w2 [p|e2]].
  2:{ left. inversion H; subst. by apply K. }
  destruct (do_punitions env p w2) as [w3 [[]|e3]].
  2:{ left. inversion H; subst. by apply K. }
  right. simpl in Q. destruct Q as ((n & E & F) & _).
  unfold set_first_run_done, redis_setex in H.
  destruct (env_setex env (trace w3) first_run_done_key (4 * 60) "1") as [|e4] eqn:S;
    [discriminate|].
  inversion H; subst. exists n. split; [|split; [exact F|]].
  - apply new_events_app. simpl. by rewrite E, <- app_assoc.
  - rewrite <- E. exact S.
Qed.

Lemma faulty_cycle_raises :
  punish_squads env_faulty w_fresh
  = ((punish_squads env_faulty w_fresh).1, Raise (OtherException "KeyError")).
Proof. vm_compute. reflexivity. Qed.

Lemma faulty_cycle_last :
  last (new_events w_fresh (punish_squads env_faulty w_fresh).1)
  = Some (EMod {| mod_kind := SeedingRulesAutomod; mod_id := 1;
                  mod_config := {| config_revision := 3 |} |}
               (punitions_to_apply_call tv_axis_only "able" "axis" squad_able gs0)).
Proof. vm_compute. reflexivity. Qed.

Lemma store_down_cycle_raises :
  punish_squads env_store_down w_fresh
  = ((punish_squads env_store_down w_fresh).1, Raise (OtherException "ConnectionError")).
Proof. vm_compute. reflexivity. Qed.

Lemma store_down_cycle_last :
  last (new_events w_fresh (punish_squads env_store_down w_fresh).1) = Some guard_setex.
Proof. vm_compute. reflexivity. Qed.

Lemma punish_squads_failure_and_guard_witness :
  Forall no_setex (new_events w_fresh (punish_squads env_faulty w_fresh).1)
  /\ exists before,
       new_events w_fresh (punish_squads env_store_down w_fresh).1
       = before ++ [guard_setex]
       /\ Forall no_setex before.
Proof.
  split.
  - destruct (punish_squads_failure_and_guard env_faulty w_fresh _ _ faulty_cycle_raises)
      as [(_ & F & _)|(before & E & _)]; [exact F|].
    exfalso. pose proof faulty_cycle_last as L.
    rewrite E, last_snoc in L. discriminate.
  - destruct (punish_squads_failure_and_guard env_store_down w_fresh _ _
                store_down_cycle_raises)
      as [(_ & F & _)|(before & E & F & _)];
      [|exists before; split; [exact E | exact F]].
    exfalso. pose proof store_down_cycle_last as L.
    apply last_Some in L as [l L]. rewrite L in F.
    apply Forall_app in F as [_ F]. inversion F as [|? ? N _]. destruct N.
Defined.

(** ** The hooks *)

(** X10: whatever happens, the kill hook leaves the redis store, the
    timers and [pendingTimers] as they were: it never marks the warm-up
    guard and never schedules a notification.  It never runs the polling
    evaluation or a connect hook, and it calls [on_kill] only on moderators
    whose class defines it, with the log line of the event.  With the
    guard set and a moderator enabled, what the hooks return is applied at
    once by [do_punitions]. *)
Theorem on_kill_effects env log w :
  redis (on_kill env log w).1 = redis w
  /\ timers (on_kill env log w).1 = timers w
  /\ pendingTimers (on_kill env log w).1 = pendingTimers w
  /\ Forall (kill_event env log) (new_events w (on_kill env log w).1)
  /\ (forall w1 mods w2 p,
        is_Some (redis w !! first_run_done_key) ->
        enabled_moderators env
          (emit (ERedis (Redis.exists_ first_run_done_key)) (emit EGetRedisClient w))
        = (w1, Ret mods) ->
        mods <> [] ->
        kill_hooks env log mods w1 = (w2, Ret p) ->
        on_kill env log w = do_punitions env p w2).
Proof.
  assert (S : steps (appends (kill_event env log)) (on_kill env log)).
  { unfold on_kill.
    apply steps_bind; [tc_solve | intros w0; by apply appends_emit |]. intros _.
    apply steps_bind; [tc_solve | |].
    { apply steps_bind; [tc_solve | intros w0; by apply appends_emit |].
      intros n. apply steps_ret; tc_solve. }
    intros [|]; simpl; [|by apply steps_logger].
    apply steps_bind; [tc_solve | |].
    { eapply steps_mono; [|apply enabled_moderators_steps]. by intros []. }
    intros mods. destruct (length mods =? 0)%nat; [by apply steps_logger|].
    apply steps_bind; [tc_solve | |].
    - apply steps_for_; [tc_solve|]. intros m acc _.
      destruct (env_has_on_kill env (mod_kind m)) eqn:K; [|apply steps_ret; tc_solve].
      apply steps_bind; [tc_solve | by apply steps_call |].
      intros o. apply steps_ret; tc_solve.
    - intros p. eapply steps_mono; [|apply do_punitions_executor].
      intros [|[]| | | | | |m []| |]; done. }
  destruct (S w) as (A & R & T & P).
  split; [exact R|]. split; [exact T|]. split; [exact P|]. split.
  - destruct A as (n & E & F). by rewrite (new_events_app _ _ _ E).
  - intros w1 mods w2 p [v G] E N K.
    assert (I : is_first_run_done (emit EGetRedisClient w)
                = (emit (ERedis (Redis.exists_ first_run_done_key))
                     (emit EGetRedisClient w), Ret true)).
    { unfold is_first_run_done, bind, redis_exists, ret. simpl. by rewrite G. }
    unfold on_kill.
    rewrite (bind_ret_l get_redis_client _ w (emit EGetRedisClient w) tt eq_refl).
    rewrite (bind_ret_l _ _ _ _ _ I). cbn [negb].
    rewrite (bind_ret_l _ _ _ _ _ E).
    destruct mods as [|m mods]; [done|]. cbn [length Nat.eqb].
    by rewrite (bind_ret_l _ _ _ _ _ K).
Qed.

(** A kill under [env_kill], the guard being set: the hook of the seeding
    moderator proposes a punish for alice, and it is sent at once. *)
Lemma on_kill_effects_witness :
  let w1 := (enabled_moderators env_kill
               (emit (ERedis (Redis.exists_ first_run_done_key))
                  (emit EGetRedisClient w_ready))).1 in
  let m := {| mod_kind := SeedingRulesAutomod; mod_id := 1;
              mod_config := {| config_revision := 5 |} |} in
  on_kill env_kill (mkLogLine "KILL") w_ready
  = do_punitions env_kill punish_alice
      (emit (EMod m (on_kill_call (mkLogLine "KILL"))) w1)
  /\ rcon_calls (new_events w_ready (on_kill env_kill (mkLogLine "KILL") w_ready).1)
     = [command_of PUNISH alice].
Proof.
  intros w1 m. split; [|vm_compute; reflexivity].
  apply (proj2 (proj2 (proj2 (proj2 (on_kill_effects env_kill (mkLogLine "KILL") w_ready))))
           w1 [m] (emit (EMod m (on_kill_call (mkLogLine "KILL"))) w1) punish_alice).
  - by eexists.
  - vm_compute. reflexivity.
  - discriminate.
  - vm_compute. reflexivity.
Defined.

Lemma guard_lookup w :
  is_first_run_done (emit EGetRedisClient w)
  = (emit (ERedis (Redis.exists_ first_run_done_key)) (emit EGetRedisClient w),
     Ret (bool_decide (is_Some (redis w !! first_run_done_key)))).
Proof.
  unfold is_first_run_done, bind, redis_exists, ret. simpl.
  by destruct (redis w !! first_run_done_key).
Qed.

(** X11: a connect event that arrives while the warm-up guard is not set
    only looks the key up and logs a debug message; a connect or kill
    event that finds the guard set but no moderator enabled logs that and
    returns.  In these cases no moderator hook is called, no player detail
    is fetched and no timer is created. *)
Theorem hooks_guards env name player_id log w :
  let w0 := emit (ERedis (Redis.exists_ first_run_done_key)) (emit EGetRedisClient w) in
  (redis w !! first_run_done_key = None ->
   on_connected env name player_id w = (emit warmup_message w0, Ret tt))
  /\ (forall w1,
        is_Some (redis w !! first_run_done_key) ->
        enabled_moderators env w0 = (w1, Ret []) ->
        on_connected env name player_id w
        = (emit (ELog DEBUG "No automod is enabled") w1, Ret tt)
        /\ on_kill env log w = (emit (ELog DEBUG "No automod is enabled") w1, Ret tt)
        /\ timers w1 = timers w /\ pendingTimers w1 = pendingTimers w).
Proof.
  intros w0. split.
  - intros G. unfold on_connected, on_connected_punitions.
    rewrite (bind_assoc get_redis_client).
    rewrite (bind_ret_l get_redis_client _ w (emit EGetRedisClient w) tt eq_refl).
    rewrite bind_assoc, (bind_ret_l _ _ _ _ _ (guard_lookup w)), G.
    reflexivity.
  - intros w1 G E.
    assert (B : bool_decide (is_Some (redis w !! first_run_done_key)) = true)
      by by apply bool_decide_eq_true.
    split; [|split].
    + unfold on_connected, on_connected_punitions.
      rewrite (bind_assoc get_redis_client).
      rewrite (bind_ret_l get_redis_client _ w (emit EGetRedisClient w) tt eq_refl).
      rewrite bind_assoc, (bind_ret_l _ _ _ _ _ (guard_lookup w)), B. cbn [negb].
      rewrite bind_assoc. fold w0. by rewrite (bind_ret_l _ _ _ _ _ E).
    + unfold on_kill.
      rewrite (bind_ret_l get_redis_client _ w (emit EGetRedisClient w) tt eq_refl).
      rewrite (bind_ret_l _ _ _ _ _ (guard_lookup w)), B. cbn [negb].
      fold w0. by rewrite (bind_ret_l _ _ _ _ _ E).
    + pose proof (enabled_moderators_steps env w0) as (_ & _ & T & P).
      rewrite E in T, P. done.
Qed.

Lemma hooks_guards_witness :
  on_connected env_welcome "bob" bob_id w_fresh
  = (emit warmup_message
       (emit (ERedis (Redis.exists_ first_run_done_key)) (emit EGetRedisClient w_fresh)),
     Ret tt)
  /\ on_connected env_quiet "bob" bob_id w_ready
     = on_kill env_quiet (mkLogLine "KILL") w_ready.
Proof.
  split.
  - apply (proj1 (hooks_guards env_welcome "bob" bob_id (mkLogLine "KILL") w_fresh)).
    reflexivity.
  - destruct (proj2 (hooks_guards env_quiet "bob" bob_id (mkLogLine "KILL") w_ready)
                (enabled_moderators env_quiet
                   (emit (ERedis (Redis.exists_ first_run_done_key))
                      (emit EGetRedisClient w_ready))).1)
      as (C & K & _).
    + by eexists.
    + vm_compute. reflexivity.
    + by rewrite C, K.
Defined.

(** X12: the connect hook survives any failure of
    [get_detailed_player_info]: whatever exception it raises is logged and
    the moderators' hooks are then called with [None] for the player's
    details; when the fetch returns they are called with what it returned.
    The hooks themselves are not guarded: the outcome of their loop is the
    outcome of this part of the hook. *)
Theorem connect_detail_degrades env name player_id w w1 mods :
  is_Some (redis w !! first_run_done_key) ->
  enabled_moderators env
    (emit (ERedis (Redis.exists_ first_run_done_key)) (emit EGetRedisClient w))
  = (w1, Ret mods) ->
  mods <> [] ->
  on_connected_punitions env name player_id w
  = match env_get_detailed_player_info env (trace w1) name with
    | Ret d =>
        (p <- connect_hooks env name player_id (Some d) mods ;; ret (Some p))
          (emit (ERcon (Rcon.get_detailed_player_info name)) w1)
    | Raise _ =>
        (p <- connect_hooks env name player_id None mods ;; ret (Some p))
          (emit detail_error (emit (ERcon (Rcon.get_detailed_player_info name)) w1))
    end.
Proof.
  intros G E N.
  assert (B : bool_decide (is_Some (redis w !! first_run_done_key)) = true)
    by by apply bool_decide_eq_true.
  unfold on_connected_punitions.
  rewrite (bind_ret_l get_redis_client _ w (emit EGetRedisClient w) tt eq_refl).
  rewrite (bind_ret_l _ _ _ _ _ (guard_lookup w)), B. cbn [negb].
  rewrite (bind_ret_l _ _ _ _ _ E).
  destruct mods as [|m mods]; [done|]. cbn [length Nat.eqb].
  unfold bind at 1. unfold try_except, bind at 1, rcon_get_detailed_player_info, call.
  destruct (env_get_detailed_player_info env (trace w1) name) as [d|e]; reflexivity.
Qed.

Lemma no_detail_moderators :
  enabled_moderators env_no_detail
    (emit (ERedis (Redis.exists_ first_run_done_key)) (emit EGetRedisClient w_ready))
  = ((enabled_moderators env_no_detail
        (emit (ERedis (Redis.exists_ first_run_done_key))
           (emit EGetRedisClient w_ready))).1,
     Ret [{| mod_kind := SeedingRulesAutomod; mod_id := 1;
             mod_config := {| config_revision := 5 |} |}]).
Proof. vm_compute. reflexivity. Qed.

Lemma connect_detail_degrades_witness :
  (on_connected_punitions env_no_detail "bob" bob_id w_ready).2 = Ret (Some bob_welcome).
Proof.
  rewrite (connect_detail_degrades env_no_detail "bob" bob_id w_ready _ _
             ltac:(by eexists) no_detail_moderators ltac:(discriminate)).
  vm_compute. reflexivity.
Defined.

(** ** Deliveries, the loop, and failures that stay inside a pass *)

Lemma deliveries_all env (ps : list PunishPlayer) w :
  (forall tr p, In p ps -> env_command env tr (deferred_message p) = Ret tt) ->
  exists w',
    for_each ps (fun p => rcon_command env (deferred_message p)) w = (w', Ret tt)
    /\ trace w' = trace w ++ map (fun p => ERcon (deferred_message p)) ps.
Proof.
  revert w. induction ps as [|p ps IH]; intros w H; simpl.
  - exists w. by rewrite app_nil_r.
  - unfold bind.
    change (rcon_command env (deferred_message p) w)
      with (emit (ERcon (deferred_message p)) w,
            env_command env (trace w) (deferred_message p)).
    rewrite (H _ p (or_introl eq_refl)).
    destruct (IH (emit (ERcon (deferred_message p)) w)) as (w' & E & T).
    { intros tr q Hq. apply H. by right. }
    exists w'. split; [exact E|]. rewrite T. simpl. by rewrite <- app_assoc.
Qed.

(** X13: when the channel accepts every message, a deferred notification
    sends one message per queued warning, in the order of the warnings,
    returns, and logs nothing. *)
Theorem notify_player_delivers_all env c w :
  (forall tr p, In p (warning (np_punitions_to_apply c)) ->
                env_command env tr (deferred_message p) = Ret tt) ->
  (notify_player env c w).2 = Ret tt
  /\ new_events w (notify_player env c w).1
     = map (fun p => ERcon (deferred_message p)) (warning (np_punitions_to_apply c)).
Proof.
  intros H.
  destruct (deliveries_all env (warning (np_punitions_to_apply c)) w H) as (w' & E & T).
  unfold notify_player, try_except. rewrite E. simpl.
  split; [done|]. by apply new_events_app.
Qed.

Lemma notify_player_delivers_all_witness :
  new_events w_fresh (notify_player env_quiet bob_closure w_fresh).1
  = [ERcon (deferred_message bob); ERcon (deferred_message bob_rules)].
Proof.
  apply (proj2 (notify_player_delivers_all env_quiet bob_closure w_fresh
                  (fun _ _ _ => eq_refl))).
Defined.

Lemma run_cycle_ok env w w1 :
  punish_squads env w = (w1, Ret tt) -> run_cycle env w = (w1, Ret tt).
Proof. intros H. unfold run_cycle, try_except, bind. by rewrite H. Qed.

Lemma run_cycle_fails env w w1 e :
  punish_squads env w = (w1, Raise e) -> run_cycle env w = (emit run_error w1, Raise e).
Proof. intros H. unfold run_cycle, try_except, bind. by rewrite H. Qed.

Lemma run_loop_stops env n w w1 w2 e fuel :
  cycles env n w = (w1, Ret tt) ->
  (punish_squads env w1 = (w2, Raise e) ->
   n < fuel ->
   run_loop env fuel w = (emit run_error w2, Raise e))
  /\ (fuel <= n -> exists w', run_loop env fuel w = (w', Ret out_of_fuel)).
Proof.
  revert w fuel. induction n as [|n IH]; intros w fuel C; simpl in C.
  - inversion C; subst. split.
    + intros P L. destruct fuel as [|fuel]; [lia|]. simpl. unfold bind.
      by rewrite (run_cycle_fails _ _ _ _ P).
    + intros L. assert (fuel = 0) as -> by lia. by exists w1.
  - unfold bind in C.
    destruct (punish_squads env w) as [w0 [[]|e0]] eqn:P0; [|discriminate].
    destruct (IH w0 (pred fuel) C) as [F G]. split.
    + intros P L. destruct fuel as [|fuel]; [lia|]. simpl. unfold bind.
      rewrite (run_cycle_ok _ _ _ P0). apply F; [done | simpl; lia].
    + intros L. destruct fuel as [|fuel]; [by exists w|]. simpl. unfold bind.
      rewrite (run_cycle_ok _ _ _ P0). apply G. simpl. lia.
Qed.

(** X14: [run] fetches the store once, then goes on as long as the poll
    cycles return; the first cycle that raises an [Exception] is logged as
    an error and its exception is raised again, which ends [run]: no cycle
    follows it.  As long as none raises the loop does not end.  The
    exceptions of the model are the ones of class [Exception], which
    [except Exception] catches; a [KeyboardInterrupt] or a [SystemExit]
    is none of them and is outside this statement. *)
Theorem run_stops_at_first_failure env n w w1 w2 e fuel :
  cycles env n (emit EGetRedisClient w) = (w1, Ret tt) ->
  (punish_squads env w1 = (w2, Raise e) ->
   n < fuel ->
   run env fuel w = (emit run_error w2, Raise e))
  /\ (fuel <= n -> exists w', run env fuel w = (w', Ret out_of_fuel)).
Proof.
  intros C. unfold run, bind, get_redis_client.
  exact (run_loop_stops env n (emit EGetRedisClient w) w1 w2 e fuel C).
Qed.

Lemma faulty_first_cycle :
  punish_squads env_faulty (emit EGetRedisClient w_fresh)
  = ((punish_squads env_faulty (emit EGetRedisClient w_fresh)).1,
     Raise (OtherException "KeyError")).
Proof. vm_compute. reflexivity. Qed.

Lemma run_stops_at_first_failure_witness :
  run env_faulty 3 w_fresh
  = (emit run_error (punish_squads env_faulty (emit EGetRedisClient w_fresh)).1,
     Raise (OtherException "KeyError")).
Proof.
  apply (proj1 (run_stops_at_first_failure env_faulty 0 w_fresh
                  (emit EGetRedisClient w_fresh)
                  (punish_squads env_faulty (emit EGetRedisClient w_fresh)).1
                  (OtherException "KeyError") 3
                  eq_refl)); [exact faulty_first_cycle | lia].
Defined.

(** X15: when every failure of the channel is a [CommandFailedError] or
    an [HLLServerError], and the audit webhook and the moderators'
    callbacks return, no failure escapes a pass of the executor: it
    returns, whatever commands failed, having gone through all its
    players. *)
Theorem recognized_failures_never_escape env method players mods w :
  (forall tr c e, env_command env tr c = Raise e -> recognized e = true) ->
  (forall tr a, env_send_to_discord_audit env tr a = Ret tt) ->
  (forall tr m q, env_player_punish_failed env tr m q = Ret tt) ->
  (_do_punitions env method players mods w).2 = Ret tt
  /\ rcon_calls (new_events w (_do_punitions env method players mods w).1)
     = map (command_of method) (sent players).
Proof.
  intros C A F.
  assert (R : (_do_punitions env method players mods w).2 = Ret tt).
  { unfold _do_punitions. revert w.
    induction players as [|p ps IH]; intros w; simpl; [done|].
    unfold bind. pose proof (punish_one_returns env method mods p w C A F) as P.
    destruct (punish_one env method mods p w) as [w1 [[]|e]]; simpl in P;
      [apply IH | discriminate]. }
  split; [exact R|].
  destruct (pass_staged env method players mods w) as (new & E & _ & _ & Q).
  rewrite (new_events_app _ _ _ E). by apply Q.
Qed.

Lemma recognized_failures_never_escape_witness :
  (_do_punitions env_reject PUNISH [alice; bob; alice_dry] [mod_a] w_fresh).2 = Ret tt.
Proof.
  apply (proj1 (recognized_failures_never_escape env_reject PUNISH
                  [alice; bob; alice_dry] [mod_a] w_fresh
                  env_reject_recognized
                  (fun _ _ => eq_refl) (fun _ _ _ => eq_refl))).
Defined.
